(** * ATS: resume ingestion, structuring and review, verified against the code

    A shallow embedding of the procedural core of the applicant-tracking
    front end: the resume structurer and the streaming insight reader of
    [ApplicationInsights], the upload handler of [JobDetails], the batch
    review of [ReviewApplications] and the status controls of
    [ApplicationReview].

    JavaScript strings are sequences of UTF-16 code units; regular
    expressions are run by a backtracking matcher written after the
    continuation semantics of ECMA-262 (clause 22.2.2). *)

From Stdlib Require Import String Ascii Bool Arith NArith QArith List Lia.
From Stdlib Require Import Permutation.
Import ListNotations.
Close Scope Q_scope.
Open Scope nat_scope.

Set Implicit Arguments.

(* ===================================================================== *)
(** ** JavaScript strings *)
(* ===================================================================== *)

Module JS.

(** A code unit of a JavaScript string. *)
Definition char := N.
Definition jsstring := list char.

(** An ASCII literal read as a JavaScript string. *)
Definition of_string (s : string) : jsstring :=
  map N_of_ascii (list_ascii_of_string s).

(** [WhiteSpace] and [LineTerminator] of ECMA-262: what [trim] strips and
    what the class escape [\s] accepts. *)
Definition isWhiteSpace (c : char) : bool :=
  ((9 <=? c) && (c <=? 13) || (c =? 32) || (c =? 160) || (c =? 5760)
   || (8192 <=? c) && (c <=? 8202) || (c =? 8232) || (c =? 8233)
   || (c =? 8239) || (c =? 8287) || (c =? 12288) || (c =? 65279))%N.

Fixpoint trimStart (s : jsstring) : jsstring :=
  match s with
  | c :: s' => if isWhiteSpace c then trimStart s' else s
  | [] => []
  end.

Definition trimEnd (s : jsstring) : jsstring := rev (trimStart (rev s)).

(** [String.prototype.trim] *)
Definition trim (s : jsstring) : jsstring := trimEnd (trimStart s).

(** [ToBoolean] on a string: the empty string is the only falsy one. *)
Definition truthy (s : jsstring) : bool :=
  match s with [] => false | _ :: _ => true end.

(** Strict equality [===] of two strings. *)
Fixpoint str_eqb (a b : jsstring) : bool :=
  match a, b with
  | [], [] => true
  | x :: a', y :: b' => (x =? y)%N && str_eqb a' b'
  | _, _ => false
  end.

Lemma str_eqb_eq (a b : jsstring) : str_eqb a b = true <-> a = b.
Proof.
  revert b; induction a as [|x a IH]; intros [|y b]; simpl;
    try (split; [discriminate | discriminate]); [tauto|].
  rewrite andb_true_iff, N.eqb_eq, IH; split.
  - intros [-> ->]; reflexivity.
  - intros E; injection E; auto.
Qed.

Lemma str_eqb_refl (a : jsstring) : str_eqb a a = true.
Proof. apply str_eqb_eq; reflexivity. Qed.

End JS.

Import JS.

(* ===================================================================== *)
(** ** Regular expressions *)
(* ===================================================================== *)

Module RegExp.

(** Class atoms as they occur in the patterns of the program. *)
Inductive cclass : Type :=
| Dot                        (* .  *)
| Space                      (* \s *)
| Digit                      (* \d *)
| Chr (c : char)             (* a single character, also \n *)
| Union (a b : cclass).      (* [ab] *)

(** Patterns.  Quantifiers are applied to class atoms only, which is all
    the program's patterns do; group 1 is the only capturing group. *)
Inductive regex : Type :=
| Lit (w : jsstring)                    (* literal characters *)
| Atom (a : cclass)
| Seq (r1 r2 : regex)
| Alt (r1 r2 : regex)
| Star (greedy : bool) (a : cclass)     (* a* and a*? *)
| Times (n : nat) (a : cclass)          (* a{n} *)
| Group (r : regex)                     (* ( r ) *)
| LookAhead (r : regex)                 (* (?= r ) *)
| Dollar.                               (* $ *)

Record flags : Type := { ignoreCase : bool; dotAll : bool }.

(** [Canonicalize] of ECMA-262 without the [u] flag.  Every literal of the
    program's patterns is ASCII and a character above 127 never
    canonicalizes to one below 128, so the ASCII folding is all that a
    comparison against a pattern character can observe. *)
Definition canonicalize (f : flags) (c : char) : char :=
  if ignoreCase f
  then if ((97 <=? c) && (c <=? 122))%N then (c - 32)%N else c
  else c.

Definition isLineTerminator (c : char) : bool :=
  ((c =? 10) || (c =? 13) || (c =? 8232) || (c =? 8233))%N.

Fixpoint in_class (f : flags) (a : cclass) (c : char) : bool :=
  match a with
  | Dot => if dotAll f then true else negb (isLineTerminator c)
  | Space => isWhiteSpace c
  | Digit => ((48 <=? c) && (c <=? 57))%N
  | Chr x => (canonicalize f x =? canonicalize f c)%N
  | Union a b => in_class f a c || in_class f b c
  end.

(** The matcher state: the input still ahead and the value of group 1. *)
Definition State : Type := (jsstring * option jsstring)%type.
Definition Continuation : Type := State -> option State.

Fixpoint lit (f : flags) (w s : jsstring) : option jsstring :=
  match w, s with
  | [], _ => Some s
  | x :: w', c :: s' =>
      if (canonicalize f x =? canonicalize f c)%N then lit f w' s' else None
  | _ :: _, [] => None
  end.

(** Greedy repetition: one more character first, the continuation after. *)
Fixpoint star_greedy (p : char -> bool) (s : jsstring) (cap : option jsstring)
                     (k : Continuation) : option State :=
  match s with
  | c :: s' =>
      if p c
      then match star_greedy p s' cap k with
           | Some r => Some r
           | None => k (s, cap)
           end
      else k (s, cap)
  | [] => k (s, cap)
  end.

(** Lazy repetition: the continuation first, one more character after. *)
Fixpoint star_lazy (p : char -> bool) (s : jsstring) (cap : option jsstring)
                   (k : Continuation) : option State :=
  match k (s, cap) with
  | Some r => Some r
  | None =>
      match s with
      | c :: s' => if p c then star_lazy p s' cap k else None
      | [] => None
      end
  end.

Fixpoint times (p : char -> bool) (n : nat) (s : jsstring) : option jsstring :=
  match n, s with
  | O, _ => Some s
  | S n', c :: s' => if p c then times p n' s' else None
  | S _, [] => None
  end.

(** The matcher of a pattern, in continuation-passing style. *)
Fixpoint matcher (f : flags) (r : regex) (st : State) (k : Continuation)
  : option State :=
  match r with
  | Lit w =>
      match lit f w (fst st) with
      | Some s' => k (s', snd st)
      | None => None
      end
  | Atom a =>
      match fst st with
      | c :: s' => if in_class f a c then k (s', snd st) else None
      | [] => None
      end
  | Seq r1 r2 => matcher f r1 st (fun st' => matcher f r2 st' k)
  | Alt r1 r2 =>
      match matcher f r1 st k with
      | Some r => Some r
      | None => matcher f r2 st k
      end
  | Star true a => star_greedy (in_class f a) (fst st) (snd st) k
  | Star false a => star_lazy (in_class f a) (fst st) (snd st) k
  | Times n a =>
      match times (in_class f a) n (fst st) with
      | Some s' => k (s', snd st)
      | None => None
      end
  | Group r1 =>
      matcher f r1 st
        (fun st' =>
           k (fst st',
              Some (firstn (length (fst st) - length (fst st')) (fst st))))
  | LookAhead r1 =>
      match matcher f r1 st (fun st' => Some st') with
      | Some st' => k (fst st, snd st')
      | None => None
      end
  | Dollar =>
      match fst st with
      | [] => k st
      | _ :: _ => None
      end
  end.

(** A match anchored at the head of [s]: the input left after it and
    group 1. *)
Definition match_here (f : flags) (r : regex) (s : jsstring) : option State :=
  matcher f r (s, None) (fun st => Some st).

(** What [exec] returns for a pattern without the [g] and [y] flags:
    element 0 (the matched text) and element 1 (group 1). *)
Record MatchArray : Type := { whole : jsstring; group1 : option jsstring }.

(** [RegExpBuiltinExec]: the first index at which the pattern matches. *)
Fixpoint exec (f : flags) (r : regex) (s : jsstring) : option MatchArray :=
  match match_here f r s with
  | Some (rest, cap) =>
      Some {| whole := firstn (length s - length rest) s; group1 := cap |}
  | None =>
      match s with
      | _ :: s' => exec f r s'
      | [] => None
      end
  end.

(** The loop of [RegExp.prototype[Symbol.split]] from index [q]: [cur] is
    the text since the last split point [p], [skip] the number of
    characters of the current separator still to step over.  The patterns
    split on have no capturing group, so nothing is spliced in. *)
Fixpoint split_from (f : flags) (r : regex) (s cur : jsstring) (skip : nat)
  : list jsstring :=
  match skip, s with
  | S n, _ :: s' => split_from f r s' cur n
  | S _, [] => [cur]
  | O, [] => [cur]
  | O, c :: s' =>
      match match_here f r s with
      | Some (rest, _) =>
          match length s - length rest, cur with
          | O, [] => split_from f r s' [c] 0
          | O, _ :: _ => cur :: split_from f r s' [c] 0
          | S n, _ => cur :: split_from f r s' [] n
          end
      | None => split_from f r s' (cur ++ [c]) 0
      end
  end.

(** [str.split(regex)] *)
Definition split (f : flags) (r : regex) (s : jsstring) : list jsstring :=
  match s with
  | [] => match match_here f r [] with Some _ => [] | None => [[]] end
  | _ :: _ => split_from f r s [] 0
  end.

End RegExp.

Import RegExp.

(* ===================================================================== *)
(** ** Exceptions *)
(* ===================================================================== *)

(** A computation that returns a value or throws. *)
Inductive Result (A : Type) : Type :=
| Ok (a : A)
| Throw (e : string).

Arguments Throw {A} e.

Definition bind {A B : Type} (c : Result A) (k : A -> Result B) : Result B :=
  match c with
  | Ok a => k a
  | Throw e => Throw e
  end.

Notation "x <- c ;; k" := (bind c (fun x => k))
  (at level 61, c at next level, right associativity).

(** [try { body } catch (error) { handler }] *)
Definition try_catch {A : Type} (body : Result A) (handler : string -> A) : A :=
  match body with
  | Ok a => a
  | Throw e => handler e
  end.

(** The two regular-expression services a string offers, as an interface:
    a call returns or throws. *)
Class RegExpEngine : Type := {
  str_match : flags -> regex -> jsstring -> Result (option MatchArray);
  str_split : flags -> regex -> jsstring -> Result (list jsstring)
}.

(** The engine of the language: it always returns. *)
#[export] Instance builtin_engine : RegExpEngine := {|
  str_match := fun f r s => Ok (exec f r s);
  str_split := fun f r s => Ok (split f r s)
|}.

(* ===================================================================== *)
(** ** The resume structurer ([structureResume] of ApplicationInsights) *)
(* ===================================================================== *)

Module Structurer.

Record StructuredResume : Type := {
  summary : jsstring;
  skills : list jsstring;
  experience : list jsstring;
  education : list jsstring;
  certifications : list jsstring;
  contact : list (jsstring * jsstring);
  rawText : option jsstring
}.

(** The object literal [sections] starts from; [rawText] is not set. *)
Definition empty_sections : StructuredResume :=
  {| summary := []; skills := []; experience := []; education := [];
     certifications := []; contact := []; rawText := None |}.

Definition set_summary (v : jsstring) (r : StructuredResume) :=
  {| summary := v; skills := skills r; experience := experience r;
     education := education r; certifications := certifications r;
     contact := contact r; rawText := rawText r |}.

Definition set_skills (v : list jsstring) (r : StructuredResume) :=
  {| summary := summary r; skills := v; experience := experience r;
     education := education r; certifications := certifications r;
     contact := contact r; rawText := rawText r |}.

Definition set_experience (v : list jsstring) (r : StructuredResume) :=
  {| summary := summary r; skills := skills r; experience := v;
     education := education r; certifications := certifications r;
     contact := contact r; rawText := rawText r |}.

Definition set_education (v : list jsstring) (r : StructuredResume) :=
  {| summary := summary r; skills := skills r; experience := experience r;
     education := v; certifications := certifications r;
     contact := contact r; rawText := rawText r |}.

Definition colon : char := 58%N.
Definition comma : char := 44%N.
Definition pipe : char := 124%N.
Definition newline : char := 10%N.
(** The three characters the source file has between the comma and the
    bar of the skill separators: U+00E2, U+20AC and U+00A2. *)
Definition a_circumflex : char := 226%N.
Definition euro_sign : char := 8364%N.
Definition cent_sign : char := 162%N.

(** [(?:w1|w2|...)] *)
Fixpoint alts (rs : list regex) : regex :=
  match rs with
  | [] => Lit []
  | [r] => r
  | r :: rs' => Alt r (alts rs')
  end.

Definition word (w : string) : regex := Lit (of_string w).

(** [/(?:heads)[:\s]*(.*?)(?=\n\s*(?:nexts|$))/is], the shape of the four
    section patterns. *)
Definition section_pattern (heads nexts : list string) : regex :=
  Seq (alts (map word heads))
 (Seq (Star true (Union (Chr colon) Space))
 (Seq (Group (Star false Dot))
      (LookAhead
         (Seq (Atom (Chr newline))
         (Seq (Star true Space)
              (alts (map word nexts ++ [Dollar]))))))).

Definition flags_is : flags := {| ignoreCase := true; dotAll := true |}.
Definition flags_i : flags := {| ignoreCase := true; dotAll := false |}.
Definition flags_none : flags := {| ignoreCase := false; dotAll := false |}.

Definition summary_heads := ["Summary"; "Profile"; "About"; "Objective"]%string.
Definition summary_nexts :=
  ["Skills"; "Experience"; "Education"; "Work"; "Employment";
   "Certifications"; "Contact"]%string.
Definition summary_pattern := section_pattern summary_heads summary_nexts.

Definition skills_heads :=
  ["Skills"; "Expertise"; "Competencies"; "Technical Skills"]%string.
Definition skills_nexts :=
  ["Experience"; "Education"; "Work"; "Employment"; "Certifications";
   "Contact"]%string.
Definition skills_pattern := section_pattern skills_heads skills_nexts.

Definition experience_heads :=
  ["Experience"; "Work Experience"; "Employment"]%string.
Definition experience_nexts :=
  ["Education"; "Skills"; "Certifications"; "Contact"]%string.
Definition experience_pattern :=
  section_pattern experience_heads experience_nexts.

Definition education_heads :=
  ["Education"; "Academic Background"; "Qualifications"]%string.
Definition education_nexts :=
  ["Experience"; "Skills"; "Certifications"; "Contact"]%string.
Definition education_pattern :=
  section_pattern education_heads education_nexts.

(** [/[,...|\n]/], the skill separators. *)
Definition skill_separator : regex :=
  Atom (Union (Chr comma) (Union (Chr a_circumflex) (Union (Chr euro_sign)
       (Union (Chr cent_sign) (Union (Chr pipe) (Chr newline)))))).

Definition months :=
  ["Jan"; "Feb"; "Mar"; "Apr"; "May"; "Jun"; "Jul"; "Aug"; "Sep"; "Oct";
   "Nov"; "Dec"]%string.

(** [/\n\s*(?=\d{4}|Jan|...|Dec)/i], the boundary between two entries. *)
Definition entry_boundary : regex :=
  Seq (Atom (Chr newline))
 (Seq (Star true Space)
      (LookAhead (alts (Times 4 Digit :: map word months)))).

(** [m && m[1]]: the captured text when the match exists and group 1 is a
    non-empty string. *)
Definition captured (m : option MatchArray) : option jsstring :=
  match m with
  | Some a =>
      match group1 a with
      | Some g => if truthy g then Some g else None
      | None => None
      end
  | None => None
  end.

Definition nonempty (s : jsstring) : bool := 0 <? length s.
Definition longer_than_10 (s : jsstring) : bool := 10 <? length s.

Section Body.

Context {engine : RegExpEngine}.

(** The entries of an experience or education span. *)
Definition entries (span : jsstring) : Result (list jsstring) :=
  parts <- str_split flags_i entry_boundary span ;;
  Ok (filter longer_than_10 (map trim parts)).

(** The statements of the [try] block; the value is the argument of
    [setStructuredResume]. *)
Definition structure_body (resumeText : jsstring) : Result StructuredResume :=
  let sections := empty_sections in
  summaryMatch <- str_match flags_is summary_pattern resumeText ;;
  let sections :=
    match captured summaryMatch with
    | Some g => set_summary (trim g) sections
    | None => sections
    end in
  skillsMatch <- str_match flags_is skills_pattern resumeText ;;
  sections <-
    match captured skillsMatch with
    | Some g =>
        parts <- str_split flags_none skill_separator g ;;
        Ok (set_skills (filter nonempty (map trim parts)) sections)
    | None => Ok sections
    end ;;
  experienceMatch <- str_match flags_is experience_pattern resumeText ;;
  sections <-
    match captured experienceMatch with
    | Some expText =>
        es <- entries expText ;; Ok (set_experience es sections)
    | None => Ok sections
    end ;;
  educationMatch <- str_match flags_is education_pattern resumeText ;;
  sections <-
    match captured educationMatch with
    | Some eduText =>
        es <- entries eduText ;; Ok (set_education es sections)
    | None => Ok sections
    end ;;
  Ok sections.

(** The argument of [setStructuredResume] in the [catch] block. *)
Definition fallback (resumeText : jsstring) : StructuredResume :=
  {| summary := []; skills := []; experience := []; education := [];
     certifications := []; contact := []; rawText := Some resumeText |}.

(** [structureResume]: the structured resume the component state is set
    to. *)
Definition structureResume_with (resumeText : jsstring) : StructuredResume :=
  try_catch (structure_body resumeText) (fun _ => fallback resumeText).

End Body.

(** [structureResume] as it runs, on the engine of the language. *)
Definition structureResume : jsstring -> StructuredResume :=
  @structureResume_with builtin_engine.

End Structurer.

Import Structurer.

(* ===================================================================== *)
(** ** Facts about the matcher *)
(* ===================================================================== *)

Section MatcherFacts.

Variable f : flags.

Lemma lit_app (w s rest : jsstring) :
  lit f w s = Some [] -> lit f w (s ++ rest) = Some rest.
Proof.
  revert s; induction w as [|x w IH]; intros [|c s] H; simpl in *;
    try discriminate.
  - reflexivity.
  - destruct (canonicalize f x =? canonicalize f c)%N; [auto | discriminate].
Qed.

(** A greedy run over [run] stops where the class stops, when the
    continuation accepts there. *)
Lemma star_greedy_max (p : char -> bool) (run rest : jsstring) cap k r :
  forallb p run = true ->
  match rest with c :: _ => p c = false | [] => True end ->
  k (rest, cap) = Some r ->
  star_greedy p (run ++ rest) cap k = Some r.
Proof.
  intros Hrun Hstop Hk; induction run as [|c run IH]; simpl in *.
  - destruct rest as [|c rest]; simpl; [assumption|].
    rewrite Hstop; assumption.
  - apply andb_prop in Hrun as [Hc Hrun]; rewrite Hc, (IH Hrun); reflexivity.
Qed.

(** A greedy run succeeds as soon as the continuation accepts after it. *)
Lemma star_greedy_some (p : char -> bool) (run rest : jsstring) cap k :
  forallb p run = true ->
  k (rest, cap) <> None ->
  star_greedy p (run ++ rest) cap k <> None.
Proof.
  intros Hrun Hk; induction run as [|c run IH]; simpl in *.
  - destruct rest as [|c rest]; simpl; [assumption|].
    destruct (p c); [|assumption].
    destruct (star_greedy p rest cap k); [discriminate | assumption].
  - apply andb_prop in Hrun as [Hc Hrun]; rewrite Hc.
    destruct (star_greedy p (run ++ rest) cap k) eqn:E; [discriminate|].
    exfalso; apply (IH Hrun); reflexivity.
Qed.

(** A lazy run stops at the first place where the continuation accepts. *)
Lemma star_lazy_first (p : char -> bool) (span rest : jsstring) cap k r :
  forallb p span = true ->
  (forall a c b, span = a ++ c :: b -> k (c :: b ++ rest, cap) = None) ->
  k (rest, cap) = Some r ->
  star_lazy p (span ++ rest) cap k = Some r.
Proof.
  intros Hp Hfail Hk; induction span as [|c span IH].
  - destruct rest; simpl; rewrite Hk; reflexivity.
  - simpl in Hp; apply andb_prop in Hp as [Hc Hp].
    change (match k (c :: span ++ rest, cap) with
            | Some r0 => Some r0
            | None => if p c then star_lazy p (span ++ rest) cap k else None
            end = Some r).
    rewrite (Hfail [] c span eq_refl), Hc.
    apply IH; [assumption|].
    intros a c' b E; apply (Hfail (c :: a) c' b); simpl; congruence.
Qed.

(** Patterns without a capturing group. *)
Fixpoint group_free (r : regex) : bool :=
  match r with
  | Seq r1 r2 | Alt r1 r2 => group_free r1 && group_free r2
  | Group _ => false
  | LookAhead r1 => group_free r1
  | _ => true
  end.

Lemma star_greedy_inv (p : char -> bool) s cap k x :
  star_greedy p s cap k = Some x -> exists s', k (s', cap) = Some x.
Proof.
  induction s as [|c s IH]; simpl; [eauto|].
  destruct (p c); [|eauto].
  destruct (star_greedy p s cap k) eqn:E; [|eauto].
  intros H; injection H as <-; auto.
Qed.

Lemma star_lazy_inv (p : char -> bool) s cap k x :
  star_lazy p s cap k = Some x -> exists s', k (s', cap) = Some x.
Proof.
  induction s as [|c s IH]; simpl.
  - destruct (k _) eqn:E; [|discriminate].
    intros H; injection H as <-; eauto.
  - destruct (k _) eqn:E.
    + intros H; injection H as <-; eauto.
    + destruct (p c); [auto | discriminate].
Qed.

(** A pattern without a group leaves group 1 as it found it. *)
Lemma matcher_group_free (r : regex) :
  group_free r = true ->
  forall s cap k x,
    matcher f r (s, cap) k = Some x -> exists s', k (s', cap) = Some x.
Proof.
  induction r as [w|a|r1 IH1 r2 IH2|r1 IH1 r2 IH2|g a|n a|r1 IH1|r1 IH1|];
    simpl; intros Hgf s cap k x H.
  - destruct (lit f w s); [eauto | discriminate].
  - destruct s as [|c s]; [discriminate|].
    destruct (in_class f a c); [eauto | discriminate].
  - apply andb_prop in Hgf as [H1 H2].
    apply (IH1 H1) in H as [s' H]. apply (IH2 H2) in H; assumption.
  - apply andb_prop in Hgf as [H1 H2].
    destruct (matcher f r1 (s, cap) k) eqn:E.
    + injection H as <-; eapply IH1; eauto.
    + eapply IH2; eauto.
  - destruct g; [eapply star_greedy_inv | eapply star_lazy_inv]; eauto.
  - destruct (times (in_class f a) n s); [eauto | discriminate].
  - discriminate.
  - destruct (matcher f r1 (s, cap) (fun st' => Some st')) as [st'|] eqn:E;
      [|discriminate].
    apply (IH1 Hgf) in E as [s' E]; injection E as <-; simpl in H; eauto.
  - destruct s; [eauto | discriminate].
Qed.

(** A look-ahead without a group, once it succeeds, hands the state on
    unchanged. *)
Lemma lookahead_pass (r : regex) s cap k :
  group_free r = true ->
  matcher f r (s, cap) (fun st' => Some st') <> None ->
  matcher f (LookAhead r) (s, cap) k = k (s, cap).
Proof.
  intros Hgf Hok; simpl.
  destruct (matcher f r (s, cap) (fun st' => Some st')) as [st'|] eqn:E;
    [|contradiction].
  apply (matcher_group_free _ Hgf) in E as [s' E]; injection E as <-.
  reflexivity.
Qed.

Lemma matcher_Alt_l (r1 r2 : regex) st k x :
  matcher f r1 st k = Some x -> matcher f (Alt r1 r2) st k = Some x.
Proof. intros H; simpl; rewrite H; reflexivity. Qed.

(** [exec] moves on from an index at which the pattern does not match. *)
Lemma exec_skip (r : regex) (c : char) (s : jsstring) :
  match_here f r (c :: s) = None -> exec f r (c :: s) = exec f r s.
Proof. intros H; simpl; rewrite H; reflexivity. Qed.

Lemma exec_here (r : regex) (s rest : jsstring) cap :
  match_here f r s = Some (rest, cap) ->
  exec f r s
  = Some {| whole := firstn (length s - length rest) s; group1 := cap |}.
Proof. intros H; destruct s; simpl; rewrite H; reflexivity. Qed.

End MatcherFacts.

(* ===================================================================== *)
(** ** Facts about the section patterns *)
(* ===================================================================== *)

Module SectionFacts.

Definition colon_space : cclass := Union (Chr colon) Space.

(** The look-ahead of a section pattern: a line break, blanks, and a next
    heading or the end of the text. *)
Definition boundary (nexts : list string) : regex :=
  Seq (Atom (Chr newline))
 (Seq (Star true Space) (alts (map word nexts ++ [Dollar]))).

(** One of the words [ws] starts [s], whatever the case of its letters. *)
Definition starts_with_any (ws : list string) (s : jsstring) : bool :=
  existsb (fun h => match lit flags_is (of_string h) s with
                    | Some _ => true
                    | None => false
                    end) ws.

(** The text ends at [s], or a next heading starts there. *)
Definition end_or_heading (nexts : list string) (s : jsstring) : bool :=
  match s with
  | [] => true
  | _ :: _ => starts_with_any nexts s
  end.

(** No word of [ws] starts at an index inside [pre] of the text
    [pre ++ rest]. *)
Fixpoint none_within (ws : list string) (pre rest : jsstring) : bool :=
  match pre with
  | [] => true
  | _ :: pre' =>
      negb (starts_with_any ws (pre ++ rest)) && none_within ws pre' rest
  end.

Definition is_newline (c : char) : bool := (c =? newline)%N.

Lemma section_pattern_eq heads nexts :
  section_pattern heads nexts
  = Seq (alts (map word heads))
   (Seq (Star true colon_space)
   (Seq (Group (Star false Dot)) (LookAhead (boundary nexts)))).
Proof. reflexivity. Qed.

Lemma in_class_newline (c : char) :
  in_class flags_is (Chr newline) c = is_newline c.
Proof.
  unfold in_class, is_newline.
  change (canonicalize flags_is newline) with newline.
  unfold canonicalize; change (ignoreCase flags_is) with true; cbv iota.
  destruct ((97 <=? c) && (c <=? 122))%N eqn:E.
  - apply andb_prop in E as [E1 E2].
    apply N.leb_le in E1; apply N.leb_le in E2.
    transitivity false; [|symmetry]; apply N.eqb_neq; unfold newline; lia.
  - apply N.eqb_sym.
Qed.

Lemma alts_cons (r : regex) (rs : list regex) :
  rs <> [] -> alts (r :: rs) = Alt r (alts rs).
Proof. destruct rs; [contradiction | reflexivity]. Qed.

Lemma alts_words_group_free (ws : list string) (last : regex) :
  group_free last = true ->
  group_free (alts (map word ws ++ [last])) = true.
Proof.
  intros Hl; induction ws as [|h ws IH]; simpl map; simpl app.
  - assumption.
  - rewrite alts_cons by (destruct (map word ws); discriminate).
    simpl; assumption.
Qed.

Lemma boundary_group_free nexts : group_free (boundary nexts) = true.
Proof. simpl; apply alts_words_group_free; reflexivity. Qed.

(** The alternatives of a look-ahead accept at the end of the text and
    before a next heading. *)
Lemma nexts_accept nexts (s : jsstring) cap :
  end_or_heading nexts s = true ->
  matcher flags_is (alts (map word nexts ++ [Dollar])) (s, cap)
          (fun st' => Some st') <> None.
Proof.
  intros H; induction nexts as [|h nexts IH]; simpl map; simpl app.
  - destruct s; [simpl; discriminate | discriminate H].
  - rewrite alts_cons by (destruct (map word nexts); discriminate).
    cbn [matcher fst snd]; unfold word at 1.
    cbn [matcher fst snd].
    destruct (lit flags_is (of_string h) s) eqn:E; [discriminate|].
    apply IH. destruct s as [|c s]; [reflexivity|].
    simpl in H |- *; rewrite E in H; assumption.
Qed.

Lemma boundary_accepts nexts (w tail : jsstring) cap k :
  forallb isWhiteSpace w = true ->
  end_or_heading nexts tail = true ->
  matcher flags_is (LookAhead (boundary nexts)) (newline :: w ++ tail, cap) k
  = k (newline :: w ++ tail, cap).
Proof.
  intros Hw Ht; apply lookahead_pass; [apply boundary_group_free|].
  unfold boundary; cbn [matcher fst snd].
  rewrite in_class_newline; unfold is_newline; rewrite N.eqb_refl.
  apply star_greedy_some; [exact Hw|].
  apply nexts_accept; assumption.
Qed.

Lemma boundary_rejects nexts (c : char) (s : jsstring) cap k :
  is_newline c = false ->
  matcher flags_is (LookAhead (boundary nexts)) (c :: s, cap) k = None.
Proof.
  intros Hc; unfold boundary; cbn [matcher fst snd].
  rewrite in_class_newline, Hc; reflexivity.
Qed.

(** Where no heading starts, the section pattern does not match. *)
Lemma heads_reject heads (s : jsstring) cap k :
  heads <> [] ->
  starts_with_any heads s = false ->
  matcher flags_is (alts (map word heads)) (s, cap) k = None.
Proof.
  intros Hne H; induction heads as [|h heads IH]; [contradiction|].
  simpl in H; apply orb_false_elim in H as [Hh Hrest].
  destruct (lit flags_is (of_string h) s) eqn:E; [discriminate|].
  destruct heads as [|h' heads].
  - simpl; unfold word; cbn [matcher fst snd]; rewrite E; reflexivity.
  - simpl map; rewrite alts_cons by discriminate.
    cbn [matcher fst snd]; unfold word at 1; cbn [matcher fst snd].
    rewrite E; apply IH; [discriminate | assumption].
Qed.

Lemma section_rejects heads nexts (s : jsstring) :
  heads <> [] ->
  starts_with_any heads s = false ->
  match_here flags_is (section_pattern heads nexts) s = None.
Proof.
  intros Hne H; unfold match_here; rewrite section_pattern_eq.
  cbn [matcher]; apply heads_reject; assumption.
Qed.

Lemma exec_past heads nexts (pre rest : jsstring) :
  heads <> [] ->
  none_within heads pre rest = true ->
  exec flags_is (section_pattern heads nexts) (pre ++ rest)
  = exec flags_is (section_pattern heads nexts) rest.
Proof.
  intros Hne; induction pre as [|c pre IH]; intros H; [reflexivity|].
  simpl in H; apply andb_prop in H as [H1 H2].
  apply negb_true_iff in H1.
  change ((c :: pre) ++ rest) with (c :: pre ++ rest).
  rewrite exec_skip; [auto|].
  apply section_rejects; assumption.
Qed.

(** The match of a section pattern at its first heading: the colons and
    blanks after the heading are skipped and group 1 is the text up to the
    first line break, when that line break is a boundary. *)
Lemma section_match_here h0 heads nexts (hd sep : jsstring) (c : char)
      (span w tail : jsstring) :
  lit flags_is (of_string h0) hd = Some [] ->
  forallb (in_class flags_is colon_space) sep = true ->
  in_class flags_is colon_space c = false ->
  forallb (fun x => negb (is_newline x)) (c :: span) = true ->
  forallb isWhiteSpace w = true ->
  end_or_heading nexts tail = true ->
  match_here flags_is (section_pattern (h0 :: heads) nexts)
             (hd ++ sep ++ (c :: span) ++ newline :: w ++ tail)
  = Some (newline :: w ++ tail, Some (c :: span)).
Proof.
  intros Hhd Hsep Hc Hspan Hw Htail.
  unfold match_here; rewrite section_pattern_eq.
  set (rest := newline :: w ++ tail).
  set (ahead := LookAhead (boundary nexts)).
  set (K := fun st' : State =>
              matcher flags_is
                (Seq (Star true colon_space)
                     (Seq (Group (Star false Dot)) ahead)) st'
                (fun st => Some st)).
  assert (HK : K (sep ++ (c :: span) ++ rest, None)
               = Some (rest, Some (c :: span))).
  { unfold K; cbn [matcher fst snd].
    apply star_greedy_max; [exact Hsep | exact Hc |].
    cbn [matcher fst snd].
    apply star_lazy_first.
    - apply forallb_forall; reflexivity.
    - intros a x b E; cbn [fst snd]; unfold ahead.
      apply boundary_rejects.
      assert (Hin : In x (c :: span)) by (rewrite E; apply in_elt).
      rewrite forallb_forall in Hspan; apply Hspan in Hin.
      apply negb_true_iff in Hin; exact Hin.
    - cbn [fst snd]; unfold rest, ahead.
      rewrite boundary_accepts by assumption.
      rewrite length_app, Nat.add_sub, firstn_app, Nat.sub_diag, firstn_all.
      simpl; rewrite app_nil_r; reflexivity. }
  assert (Hlit : matcher flags_is (word h0)
                   (hd ++ sep ++ (c :: span) ++ rest, None) K
                 = Some (rest, Some (c :: span))).
  { unfold word; cbn [matcher fst snd].
    rewrite (lit_app _ _ _ _ Hhd); exact HK. }
  change (matcher flags_is (alts (map word (h0 :: heads)))
            (hd ++ sep ++ (c :: span) ++ rest, None) K
          = Some (rest, Some (c :: span))).
  destruct heads as [|h1 heads].
  - exact Hlit.
  - simpl map; rewrite alts_cons by discriminate.
    apply matcher_Alt_l; exact Hlit.
Qed.

End SectionFacts.

(* ===================================================================== *)
(** ** Facts about splitting *)
(* ===================================================================== *)

Module SplitFacts.

(** The fields of [s] between the characters that satisfy [sep]: what
    splitting on a one-character separator means. *)
Fixpoint fields (sep : char -> bool) (s : jsstring) : list jsstring :=
  match s with
  | [] => [[]]
  | c :: s' =>
      if sep c then [] :: fields sep s'
      else match fields sep s' with
           | t :: ts => (c :: t) :: ts
           | [] => [[c]]
           end
  end.

Lemma fields_nonempty sep s : fields sep s <> [].
Proof.
  destruct s as [|c s]; simpl; [discriminate|].
  destruct (sep c); [discriminate|].
  destruct (fields sep s); discriminate.
Qed.

Lemma fields_ext (p q : char -> bool) s :
  forallb (fun c => eqb (p c) (q c)) s = true -> fields p s = fields q s.
Proof.
  induction s as [|c s IH]; simpl; [reflexivity|].
  intros H; apply andb_prop in H as [Hc Hs].
  apply eqb_prop in Hc; rewrite Hc, (IH Hs); reflexivity.
Qed.

Lemma match_here_atom f a c (s : jsstring) :
  match_here f (Atom a) (c :: s)
  = if in_class f a c then Some (s, None) else None.
Proof. reflexivity. Qed.

(** Splitting on a class atom cuts the text into its fields. *)
Lemma split_from_atom f a (s cur : jsstring) :
  split_from f (Atom a) s cur 0
  = match fields (in_class f a) s with
    | t :: ts => (cur ++ t) :: ts
    | [] => [cur]
    end.
Proof.
  revert cur; induction s as [|c s IH]; intros cur.
  - simpl; rewrite app_nil_r; reflexivity.
  - cbn [split_from fields]; rewrite match_here_atom.
    destruct (in_class f a c).
    + replace (length (c :: s) - length s) with 1
        by (change (length (c :: s)) with (S (length s)); lia).
      rewrite IH, app_nil_r.
      destruct (fields (in_class f a) s) eqn:E;
        [exfalso; eapply fields_nonempty; eauto | reflexivity].
    + rewrite IH.
      destruct (fields (in_class f a) s) eqn:E;
        [exfalso; eapply fields_nonempty; eauto |].
      rewrite <- app_assoc; reflexivity.
Qed.

Lemma split_atom f a (s : jsstring) :
  s <> [] -> split f (Atom a) s = fields (in_class f a) s.
Proof.
  destruct s as [|c s]; [contradiction|]; intros _.
  unfold split; rewrite split_from_atom.
  destruct (fields (in_class f a) (c :: s)) eqn:E;
    [exfalso; eapply fields_nonempty; eauto | reflexivity].
Qed.

End SplitFacts.

(* ===================================================================== *)
(** ** What each field of the structured resume is *)
(* ===================================================================== *)

Module Fields.

Import SplitFacts.

Ltac run_body :=
  unfold structureResume, structureResume_with, structure_body, entries;
  cbn [str_match str_split builtin_engine bind try_catch].

Ltac case_sections :=
  repeat match goal with
         | |- context [captured ?m] => destruct (captured m)
         end;
  cbn [bind try_catch]; try reflexivity.

Lemma summary_structureResume (t : jsstring) :
  summary (structureResume t)
  = match captured (exec flags_is summary_pattern t) with
    | Some g => trim g
    | None => []
    end.
Proof. run_body; case_sections. Qed.

Lemma skills_structureResume (t : jsstring) :
  skills (structureResume t)
  = match captured (exec flags_is skills_pattern t) with
    | Some g => filter nonempty (map trim (split flags_none skill_separator g))
    | None => []
    end.
Proof. run_body; case_sections. Qed.

Lemma experience_structureResume (t : jsstring) :
  experience (structureResume t)
  = match captured (exec flags_is experience_pattern t) with
    | Some g =>
        filter longer_than_10 (map trim (split flags_i entry_boundary g))
    | None => []
    end.
Proof. run_body; case_sections. Qed.

Lemma education_structureResume (t : jsstring) :
  education (structureResume t)
  = match captured (exec flags_is education_pattern t) with
    | Some g =>
        filter longer_than_10 (map trim (split flags_i entry_boundary g))
    | None => []
    end.
Proof. run_body; case_sections. Qed.

Lemma rawText_structureResume (t : jsstring) :
  rawText (structureResume t) = None.
Proof. run_body; case_sections. Qed.

End Fields.

(* ===================================================================== *)
(** ** The structurer: skills *)
(* ===================================================================== *)

Module SkillsSpec.

Import SectionFacts SplitFacts Fields.

Definition is_comma (c : char) : bool := (c =? comma)%N.

(** A separator of the program other than the comma. *)
Definition other_separator (c : char) : bool :=
  ((c =? a_circumflex) || (c =? euro_sign) || (c =? cent_sign)
   || (c =? pipe) || (c =? newline))%N.

(** The trimmed, non-empty tokens of a comma-separated list, in the order
    of the list. *)
Definition comma_tokens (list_text : jsstring) : list jsstring :=
  filter nonempty (map trim (fields is_comma list_text)).

(** The list text starts with a character that is neither a colon nor
    white space. *)
Definition starts_plain (s : jsstring) : bool :=
  match s with
  | c :: _ => negb (in_class flags_is colon_space c)
  | [] => false
  end.

Lemma skill_separator_class (c : char) :
  in_class flags_none
    (Union (Chr comma) (Union (Chr a_circumflex) (Union (Chr euro_sign)
       (Union (Chr cent_sign) (Union (Chr pipe) (Chr newline)))))) c
  = is_comma c || other_separator c.
Proof.
  unfold in_class, canonicalize, is_comma, other_separator.
  change (ignoreCase flags_none) with false; cbv iota.
  rewrite !(N.eqb_sym c), !orb_assoc; reflexivity.
Qed.

End SkillsSpec.

Import SkillsSpec.

(** C1, as the specification states it, at two texts: the skills of a
    comma-separated list that the text ends with, and of a list with a bar
    inside an item, are not the comma-separated tokens of the list. *)
Lemma skills_claim_counterexample :
  skills (structureResume (of_string "Skills: Go, Rust, C++"))
  <> comma_tokens (of_string "Go, Rust, C++")
  /\ skills (structureResume
               (of_string "Skills: C|C++, Go" ++ [newline]
                ++ of_string "Experience:"))
     <> comma_tokens (of_string "C|C++, Go").
Proof. split; vm_compute; discriminate. Qed.

(** C1 (amended): for every resume text in which the first skills heading
    is "Skills" (in any case), followed by colons and blanks and then by a
    one-line list that has no bar and none of U+00E2, U+20AC, U+00A2,
    where the line break after the list is followed by blanks and then by
    a next heading or the end of the text, the skills are the trimmed,
    non-empty tokens of the comma-separated list, in the order of the
    list. *)
Theorem skills_of_comma_list
        (pre hd sep list_text w tail : jsstring) :
  SectionFacts.none_within skills_heads pre
    (hd ++ sep ++ list_text ++ newline :: w ++ tail) = true ->
  lit flags_is (of_string "Skills") hd = Some [] ->
  forallb (in_class flags_is SectionFacts.colon_space) sep = true ->
  starts_plain list_text = true ->
  forallb (fun c => negb (other_separator c)) list_text = true ->
  forallb isWhiteSpace w = true ->
  SectionFacts.end_or_heading skills_nexts tail = true ->
  skills (structureResume
            (pre ++ hd ++ sep ++ list_text ++ newline :: w ++ tail))
  = comma_tokens list_text.
Proof.
  intros Hpre Hhd Hsep Hplain Hitems Hw Htail.
  destruct list_text as [|c items]; [discriminate Hplain|].
  simpl in Hplain; apply negb_true_iff in Hplain.
  rewrite Fields.skills_structureResume.
  unfold skills_pattern.
  rewrite SectionFacts.exec_past by (assumption || discriminate).
  erewrite exec_here.
  2:{ apply SectionFacts.section_match_here; try assumption.
      rewrite forallb_forall in Hitems |- *.
      intros x Hx; apply Hitems in Hx.
      unfold other_separator in Hx; unfold SectionFacts.is_newline.
      apply negb_true_iff in Hx; apply negb_true_iff.
      repeat (apply orb_false_elim in Hx as [Hx ?]); assumption. }
  cbn [captured group1 truthy].
  unfold skill_separator; rewrite SplitFacts.split_atom by discriminate.
  unfold comma_tokens; f_equal; f_equal.
  apply SplitFacts.fields_ext.
  rewrite forallb_forall in Hitems |- *.
  intros x Hx; apply Hitems in Hx; apply negb_true_iff in Hx.
  rewrite skill_separator_class, Hx, orb_false_r.
  apply eqb_reflx.
Qed.

(** The amended C1 at the list of the specification's scenario. *)
Lemma skills_of_comma_list_witness :
  skills (structureResume
            (of_string "Skills: Go, Rust, C++" ++ [newline]
             ++ of_string "Experience:" ++ [newline]
             ++ of_string "2020 Engineer at Foo"))
  = [of_string "Go"; of_string "Rust"; of_string "C++"].
Proof.
  exact (skills_of_comma_list [] (of_string "Skills") (of_string ": ")
           (of_string "Go, Rust, C++") []
           (of_string "Experience:" ++ [newline]
            ++ of_string "2020 Engineer at Foo")
           eq_refl eq_refl eq_refl eq_refl eq_refl eq_refl eq_refl).
Defined.

(* ===================================================================== *)
(** ** The structurer: errors and defaults *)
(* ===================================================================== *)

Module Graceful.

(** An engine whose calls throw, to run the [catch] block. *)
Definition throwing_engine : RegExpEngine := {|
  str_match := fun _ _ _ => Throw "Invalid regular expression";
  str_split := fun _ _ _ => Throw "Invalid regular expression"
|}.

(** An engine that matches as the language does and throws when asked to
    split. *)
Definition split_throwing_engine : RegExpEngine := {|
  str_match := fun f r s => Ok (exec f r s);
  str_split := fun _ _ _ => Throw "Maximum call stack size exceeded"
|}.

(** The literal a pattern starts with. *)
Fixpoint first_literal (r : regex) : jsstring :=
  match r with
  | Lit w => w
  | Seq r1 _ | Alt r1 _ => first_literal r1
  | _ => []
  end.

(** An engine that matches and splits as the language does, except that
    the match of the education pattern, the last call of the [try] block,
    throws. *)
Definition late_throwing_engine : RegExpEngine := {|
  str_match := fun f r s =>
    if str_eqb (first_literal r) (of_string "Education")
    then Throw "Maximum call stack size exceeded"
    else Ok (exec f r s);
  str_split := fun f r s => Ok (split f r s)
|}.

Section Calls.

Context {engine : RegExpEngine}.

Definition threw {A : Type} (c : Result A) : bool :=
  match c with
  | Throw _ => true
  | Ok _ => false
  end.

(** The match returned a captured span and the split of that span
    throws. *)
Definition split_threw (f : flags) (r : regex)
           (m : Result (option MatchArray)) : bool :=
  match m with
  | Ok a =>
      match captured a with
      | Some span => threw (str_split f r span)
      | None => false
      end
  | Throw _ => false
  end.

(** One of the calls of the engine that the [try] block makes for this
    text throws: one of the four matches, or the split of a span that a
    match captured. *)
Definition some_call_throws (text : jsstring) : bool :=
  threw (str_match flags_is summary_pattern text)
  || threw (str_match flags_is skills_pattern text)
  || split_threw flags_none skill_separator
       (str_match flags_is skills_pattern text)
  || threw (str_match flags_is experience_pattern text)
  || split_threw flags_i entry_boundary
       (str_match flags_is experience_pattern text)
  || threw (str_match flags_is education_pattern text)
  || split_threw flags_i entry_boundary
       (str_match flags_is education_pattern text).

(** The pieces the span of an experience or education pattern is cut
    into, before they are trimmed: none when the pattern captures nothing
    or a call throws. *)
Definition candidates (pattern : regex) (text : jsstring) : list jsstring :=
  match str_match flags_is pattern text with
  | Ok a =>
      match captured a with
      | Some span =>
          match str_split flags_i entry_boundary span with
          | Ok parts => parts
          | Throw _ => []
          end
      | None => []
      end
  | Throw _ => []
  end.

End Calls.

Ltac step_body :=
  match goal with
  | |- context [@str_match ?E ?f ?p ?t] =>
      let H := fresh "Hmatch" in
      destruct (@str_match E f p t) as [?m|?e] eqn:H
  | |- context [@str_split ?E ?f ?p ?t] =>
      let H := fresh "Hsplit" in
      destruct (@str_split E f p t) as [?parts|?e] eqn:H
  | |- context [captured ?m] =>
      let H := fresh "Hcap" in
      destruct (captured m) eqn:H
  end; cbn [bind try_catch].

Ltac run_calls :=
  unfold structureResume_with, structure_body, entries, some_call_throws,
    candidates, split_threw, threw;
  repeat step_body.

Lemma filter_longer_than_10 (l : list jsstring) :
  Forall (fun e => 10 < length e) (filter longer_than_10 l).
Proof.
  apply Forall_forall; intros e He.
  apply filter_In in He as [_ He]; apply Nat.ltb_lt; exact He.
Qed.

Lemma trimStart_idem s : trimStart (trimStart s) = trimStart s.
Proof.
  induction s as [|c s IH]; simpl; [reflexivity|].
  destruct (isWhiteSpace c) eqn:E; [exact IH|].
  simpl; rewrite E; reflexivity.
Qed.

Lemma trimStart_snoc l c :
  isWhiteSpace c = false -> trimStart (l ++ [c]) = trimStart l ++ [c].
Proof.
  intros Hc; induction l as [|x l IH]; simpl.
  - rewrite Hc; reflexivity.
  - destruct (isWhiteSpace x); [exact IH | reflexivity].
Qed.

Lemma trimEnd_cons c s :
  isWhiteSpace c = false -> trimEnd (c :: s) = c :: trimEnd s.
Proof.
  intros Hc; unfold trimEnd; simpl rev.
  rewrite trimStart_snoc by exact Hc; rewrite rev_app_distr; reflexivity.
Qed.

Lemma trimStart_head s :
  match trimStart s with
  | c :: _ => isWhiteSpace c = false
  | [] => True
  end.
Proof.
  induction s as [|c s IH]; simpl; [exact I|].
  destruct (isWhiteSpace c) eqn:E; [exact IH | exact E].
Qed.

(** Trimming a trimmed string changes nothing. *)
Lemma trim_idem s : trim (trim s) = trim s.
Proof.
  unfold trim.
  assert (H : trimStart (trimEnd (trimStart s)) = trimEnd (trimStart s)).
  { pose proof (trimStart_head s) as Hh.
    destruct (trimStart s) as [|c u]; [reflexivity|].
    rewrite trimEnd_cons by exact Hh; simpl; rewrite Hh; reflexivity. }
  rewrite H; unfold trimEnd.
  rewrite rev_involutive, trimStart_idem; reflexivity.
Qed.

(** What is kept of the pieces of a span: trimmed strings of more than 10
    characters. *)
Lemma kept_entries (l : list jsstring) :
  Forall (fun e => 10 < length e /\ trim e = e)
         (filter longer_than_10 (map trim l)).
Proof.
  apply Forall_forall; intros e He.
  apply filter_In in He as [He Hlen]; split.
  - apply Nat.ltb_lt; exact Hlen.
  - apply in_map_iff in He as (x & <- & _); apply trim_idem.
Qed.

(** A call of the engine that throws sends [structureResume] to its
    [catch] block. *)
Lemma throw_gives_fallback (E : RegExpEngine) (text : jsstring) :
  @some_call_throws E text = true ->
  @structureResume_with E text = fallback text.
Proof.
  run_calls; cbn; intros H; try reflexivity; discriminate H.
Qed.

(** Without such a call the [try] block runs to its end. *)
Lemma no_throw_runs_through (E : RegExpEngine) (text : jsstring) :
  @some_call_throws E text = false ->
  @structure_body E text = Ok (@structureResume_with E text)
  /\ rawText (@structureResume_with E text) = None
  /\ certifications (@structureResume_with E text) = []
  /\ contact (@structureResume_with E text) = [].
Proof.
  run_calls; cbn; intros H; try discriminate H; repeat split.
Qed.

Lemma unfound_is_empty (E : RegExpEngine) (text : jsstring) :
  let r := @structureResume_with E text in
  (forall m, str_match flags_is summary_pattern text = Ok m ->
             captured m = None -> summary r = [])
  /\ (forall m, str_match flags_is skills_pattern text = Ok m ->
                captured m = None -> skills r = [])
  /\ (forall m, str_match flags_is experience_pattern text = Ok m ->
                captured m = None -> experience r = [])
  /\ (forall m, str_match flags_is education_pattern text = Ok m ->
                captured m = None -> education r = []).
Proof.
  cbv zeta; unfold structureResume_with, structure_body, entries.
  repeat step_body;
    repeat split; try reflexivity; intros; congruence.
Qed.

Lemma entries_from_candidates (E : RegExpEngine) (text : jsstring) :
  @some_call_throws E text = false ->
  experience (@structureResume_with E text)
  = filter longer_than_10
      (map trim (@candidates E experience_pattern text))
  /\ education (@structureResume_with E text)
     = filter longer_than_10
         (map trim (@candidates E education_pattern text)).
Proof.
  run_calls; cbn; intros H; try discriminate H; split; reflexivity.
Qed.

Lemma entries_kept (E : RegExpEngine) (text : jsstring) :
  Forall (fun e => 10 < length e /\ trim e = e)
         (experience (@structureResume_with E text))
  /\ Forall (fun e => 10 < length e /\ trim e = e)
            (education (@structureResume_with E text)).
Proof.
  unfold structureResume_with, structure_body, entries.
  repeat step_body;
    split; cbn; try apply Forall_nil; apply kept_entries.
Qed.

End Graceful.

(** C4: on every engine and for every input text, [structureResume] has a
    value.  When a call of the engine that the [try] block makes throws,
    be it one of the four matches or the split of a captured span, the
    value is the all-empty structure with [rawText] set to the input
    text.  When none throws, [rawText] is not set and certifications and
    contact are empty.  In both cases every section whose pattern found no
    text is empty.  On the engine of the language, which never throws,
    [rawText] is never set. *)
Theorem structureResume_graceful (E : RegExpEngine) (text : jsstring) :
  (if @Graceful.some_call_throws E text
   then @structureResume_with E text
        = {| summary := []; skills := []; experience := []; education := [];
             certifications := []; contact := []; rawText := Some text |}
   else rawText (@structureResume_with E text) = None
        /\ certifications (@structureResume_with E text) = []
        /\ contact (@structureResume_with E text) = [])
  /\ (forall m, str_match flags_is summary_pattern text = Ok m ->
                captured m = None ->
                summary (@structureResume_with E text) = [])
  /\ (forall m, str_match flags_is skills_pattern text = Ok m ->
                captured m = None ->
                skills (@structureResume_with E text) = [])
  /\ (forall m, str_match flags_is experience_pattern text = Ok m ->
                captured m = None ->
                experience (@structureResume_with E text) = [])
  /\ (forall m, str_match flags_is education_pattern text = Ok m ->
                captured m = None ->
                education (@structureResume_with E text) = [])
  /\ @Graceful.some_call_throws builtin_engine text = false
  /\ rawText (structureResume text) = None.
Proof.
  split; [|split; [|split; [|split; [|split; [|split]]]]].
  - destruct (@Graceful.some_call_throws E text) eqn:H.
    + apply Graceful.throw_gives_fallback; exact H.
    + apply Graceful.no_throw_runs_through; exact H.
  - apply (Graceful.unfound_is_empty E text).
  - apply (Graceful.unfound_is_empty E text).
  - apply (Graceful.unfound_is_empty E text).
  - apply (Graceful.unfound_is_empty E text).
  - unfold Graceful.some_call_throws, Graceful.split_threw, Graceful.threw.
    cbn [str_match str_split builtin_engine].
    repeat match goal with
           | |- context [captured ?m] => destruct (captured m)
           end; reflexivity.
  - apply Fields.rawText_structureResume.
Qed.

(** C4 on a text without headings, on an engine whose first call throws,
    on one whose split of the skills throws and on one whose last match
    throws after three sections were found. *)
Lemma structureResume_graceful_witness :
  structureResume (of_string "Jane Doe, engineer") = empty_sections
  /\ @structureResume_with Graceful.throwing_engine
       (of_string "Skills: Go")
     = fallback (of_string "Skills: Go")
  /\ @structureResume_with Graceful.split_throwing_engine
       (of_string "Skills: Go, Rust" ++ [newline])
     = fallback (of_string "Skills: Go, Rust" ++ [newline])
  /\ @structureResume_with Graceful.late_throwing_engine
       (of_string "Summary: Dev" ++ [newline]
        ++ of_string "Skills: Go, Rust" ++ [newline])
     = fallback (of_string "Summary: Dev" ++ [newline]
                 ++ of_string "Skills: Go, Rust" ++ [newline]).
Proof.
  split; [|split; [|split]].
  - pose proof (structureResume_graceful builtin_engine
                  (of_string "Jane Doe, engineer")) as H.
    destruct H as (_ & Hsum & Hski & Hexp & Hedu & _ & Hraw).
    reflexivity.
  - exact (proj1 (structureResume_graceful Graceful.throwing_engine
                    (of_string "Skills: Go"))).
  - exact (proj1 (structureResume_graceful Graceful.split_throwing_engine
                    (of_string "Skills: Go, Rust" ++ [newline]))).
  - exact (proj1 (structureResume_graceful Graceful.late_throwing_engine
                    (of_string "Summary: Dev" ++ [newline]
                     ++ of_string "Skills: Go, Rust" ++ [newline]))).
Defined.

(** C5: on every engine and for every resume text, the experience and the
    education sequence are, when no call of the engine throws, the pieces
    of the captured span, each trimmed, in order, without those whose
    trimmed form has 10 characters or fewer, and are empty when a call
    throws.  So every entry kept is a trimmed string of more than 10
    characters, and a piece whose trimmed form has 10 characters or fewer
    is in neither sequence. *)
Theorem short_entries_excluded (E : RegExpEngine) (text : jsstring) :
  (if @Graceful.some_call_throws E text
   then experience (@structureResume_with E text) = []
        /\ education (@structureResume_with E text) = []
   else experience (@structureResume_with E text)
        = filter (fun e => 10 <? length e)
            (map trim (@Graceful.candidates E experience_pattern text))
        /\ education (@structureResume_with E text)
           = filter (fun e => 10 <? length e)
               (map trim (@Graceful.candidates E education_pattern text)))
  /\ Forall (fun e => 10 < length e /\ trim e = e)
            (experience (@structureResume_with E text))
  /\ Forall (fun e => 10 < length e /\ trim e = e)
            (education (@structureResume_with E text))
  /\ (forall piece,
        length (trim piece) <= 10 ->
        ~ In (trim piece) (experience (@structureResume_with E text))
        /\ ~ In (trim piece) (education (@structureResume_with E text))).
Proof.
  pose proof (Graceful.entries_kept E text) as [Hexp Hedu].
  split; [|split; [exact Hexp | split; [exact Hedu|]]].
  - destruct (@Graceful.some_call_throws E text) eqn:H.
    + rewrite (Graceful.throw_gives_fallback E text H); split; reflexivity.
    + apply Graceful.entries_from_candidates; exact H.
  - intros piece Hlen; rewrite Forall_forall in Hexp, Hedu.
    split; intros Hin;
      [apply Hexp in Hin | apply Hedu in Hin]; destruct Hin as [Hin _]; lia.
Qed.

(** C5 at a text with a kept entry, a piece of 14 characters that trims to
    8, and pieces of 10 and of 4 characters. *)
Lemma short_entries_excluded_witness :
  Graceful.candidates experience_pattern
    (of_string "Experience:" ++ [newline]
     ++ of_string "2020 Engineer at Foo" ++ [newline]
     ++ of_string "2019 abc      " ++ [newline]
     ++ of_string "2019 Clerk" ++ [newline]
     ++ of_string "2018" ++ [newline])
  = [of_string "2020 Engineer at Foo"; of_string "2019 abc      ";
     of_string "2019 Clerk"; of_string "2018"]
  /\ experience
       (structureResume
          (of_string "Experience:" ++ [newline]
           ++ of_string "2020 Engineer at Foo" ++ [newline]
           ++ of_string "2019 abc      " ++ [newline]
           ++ of_string "2019 Clerk" ++ [newline]
           ++ of_string "2018" ++ [newline]))
     = [of_string "2020 Engineer at Foo"].
Proof.
  split; [reflexivity|].
  exact (proj1 (proj1 (short_entries_excluded builtin_engine
           (of_string "Experience:" ++ [newline]
            ++ of_string "2020 Engineer at Foo" ++ [newline]
            ++ of_string "2019 abc      " ++ [newline]
            ++ of_string "2019 Clerk" ++ [newline]
            ++ of_string "2018" ++ [newline])))).
Defined.

(* ===================================================================== *)
(** ** The structurer: texts without a line break *)
(* ===================================================================== *)

Module OneLine.

Import SectionFacts.

(** The text has no line break. *)
Definition one_line (s : jsstring) : bool :=
  forallb (fun c => negb (is_newline c)) s.

Lemma one_line_tail c s : one_line (c :: s) = true -> one_line s = true.
Proof. intros H; apply andb_prop in H as [_ H]; exact H. Qed.

Section Fails.

Variable f : flags.

Lemma lit_one_line w s s' :
  lit f w s = Some s' -> one_line s = true -> one_line s' = true.
Proof.
  revert s; induction w as [|x w IH]; intros [|c s]; simpl;
    try discriminate; try (intros H; injection H as <-; auto; fail).
  destruct (canonicalize f x =? canonicalize f c)%N; [|discriminate].
  intros H Hs; apply andb_prop in Hs as [_ Hs]; eauto.
Qed.

Lemma times_one_line p n s s' :
  times p n s = Some s' -> one_line s = true -> one_line s' = true.
Proof.
  revert s; induction n as [|n IH]; intros [|c s]; simpl;
    try discriminate; try (intros H; injection H as <-; auto; fail).
  destruct (p c); [|discriminate].
  intros H Hs; apply andb_prop in Hs as [_ Hs]; eauto.
Qed.

Lemma star_greedy_none p s cap (k : Continuation) :
  one_line s = true ->
  (forall s' cap', one_line s' = true -> k (s', cap') = None) ->
  star_greedy p s cap k = None.
Proof.
  intros Hs Hk; induction s as [|c s IH]; simpl; [auto|].
  destruct (p c); [|auto].
  rewrite (IH (one_line_tail _ _ Hs)); auto.
Qed.

Lemma star_lazy_none p s cap (k : Continuation) :
  one_line s = true ->
  (forall s' cap', one_line s' = true -> k (s', cap') = None) ->
  star_lazy p s cap k = None.
Proof.
  intros Hs Hk; induction s as [|c s IH]; simpl.
  - rewrite (Hk _ _ Hs); reflexivity.
  - rewrite (Hk _ _ Hs); destruct (p c); [|reflexivity].
    apply IH; eapply one_line_tail; eauto.
Qed.

(** A pattern cannot match on a one-line text when what follows it cannot. *)
Lemma matcher_none (r : regex) :
  forall s cap (k : Continuation),
    one_line s = true ->
    (forall s' cap', one_line s' = true -> k (s', cap') = None) ->
    matcher f r (s, cap) k = None.
Proof.
  induction r as [w|a|r1 IH1 r2 IH2|r1 IH1 r2 IH2|g a|n a|r1 IH1|r1 IH1|];
    intros s cap k Hs Hk; cbn [matcher fst snd].
  - destruct (lit f w s) eqn:E; [|reflexivity].
    apply Hk; eapply lit_one_line; eauto.
  - destruct s as [|c s]; [reflexivity|].
    destruct (in_class f a c); [|reflexivity].
    apply Hk; eapply one_line_tail; eauto.
  - apply IH1; [assumption|].
    intros s' cap' Hs'; apply IH2; assumption.
  - rewrite IH1, IH2 by assumption; reflexivity.
  - destruct g; [apply star_greedy_none | apply star_lazy_none]; assumption.
  - destruct (times (in_class f a) n s) eqn:E; [|reflexivity].
    apply Hk; eapply times_one_line; eauto.
  - apply IH1; [assumption|].
    intros s' cap' Hs'; apply Hk; assumption.
  - destruct (matcher f r1 (s, cap) (fun st' => Some st')); [|reflexivity].
    apply Hk; assumption.
  - destruct s; [|reflexivity]. apply Hk; assumption.
Qed.

End Fails.

Lemma boundary_needs_newline nexts s cap k :
  one_line s = true ->
  matcher flags_is (LookAhead (boundary nexts)) (s, cap) k = None.
Proof.
  intros Hs; destruct s as [|c s]; [reflexivity|].
  apply boundary_rejects.
  apply andb_prop in Hs as [Hc _]; apply negb_true_iff in Hc; exact Hc.
Qed.

Lemma section_needs_newline heads nexts s :
  one_line s = true ->
  match_here flags_is (section_pattern heads nexts) s = None.
Proof.
  intros Hs; unfold match_here; rewrite section_pattern_eq.
  change (matcher flags_is
            (Seq (alts (map word heads))
                 (Seq (Star true colon_space) (Group (Star false Dot))))
            (s, None)
            (fun st' => matcher flags_is (LookAhead (boundary nexts)) st'
                                (fun st => Some st)) = None).
  apply matcher_none; [assumption|].
  intros s' cap' Hs'; apply boundary_needs_newline; assumption.
Qed.

Lemma exec_needs_newline heads nexts s :
  one_line s = true ->
  exec flags_is (section_pattern heads nexts) s = None.
Proof.
  induction s as [|c s IH]; intros Hs.
  - simpl exec. rewrite (section_needs_newline heads nexts [] Hs).
    reflexivity.
  - rewrite exec_skip by (apply section_needs_newline; assumption).
    apply IH; eapply one_line_tail; eauto.
Qed.

End OneLine.

(** C6, what the program does where the claim fails: for every resume
    text without a line break the summary is empty, whatever heading and
    text it has: the look-ahead of the pattern asks for a line break before
    the end of the text. *)
Theorem summary_needs_line_break (text : jsstring) :
  OneLine.one_line text = true ->
  summary (structureResume text) = [].
Proof.
  intros H; rewrite Fields.summary_structureResume.
  unfold summary_pattern; rewrite OneLine.exec_needs_newline by assumption.
  reflexivity.
Qed.

(** C6 at a summary that the text ends with. *)
Lemma summary_needs_line_break_witness :
  summary (structureResume (of_string "Summary: Experienced engineer")) = [].
Proof.
  exact (summary_needs_line_break
           (of_string "Summary: Experienced engineer") eq_refl).
Defined.

(* ===================================================================== *)
(** ** The streaming insight reader ([analyzeResume] of ApplicationInsights) *)
(* ===================================================================== *)

Module Insights.

(** [s.split(sep)] for a separator of one character; [cur] is the text
    since the last separator. *)
Fixpoint split_char (sep : char) (s cur : jsstring) : list jsstring :=
  match s with
  | [] => [cur]
  | c :: s' =>
      if (c =? sep)%N then cur :: split_char sep s' []
      else split_char sep s' (cur ++ [c])
  end.

(** [chunk.split('\n').filter(line => line.trim())] *)
Definition lines_of (chunk : jsstring) : list jsstring :=
  filter (fun line => truthy (trim line)) (split_char newline chunk []).

(** The local [output] and the [insights] state of the component. *)
Record Buffers : Type := { output : jsstring; insights : jsstring }.

Section Reader.

(** What the platform and the endpoint supply: the values of JSON, the
    parser, which throws on a malformed text, the read of [parsed.response]
    as [+=] appends it, which throws when [parsed] is [null], and the
    decoder of a chunk. *)
Variable JSValue : Type.
Variable JSON_parse : jsstring -> Result JSValue.
Variable response_text : JSValue -> Result jsstring.
Variable Chunk : Type.
Variable decode : Chunk -> jsstring.

(** The body of [lines.forEach]: the [try] block appends the response to
    both buffers, the [catch] block logs and goes on. *)
Definition on_line (b : Buffers) (line : jsstring) : Buffers :=
  try_catch
    (parsed <- JSON_parse line ;;
     response <- response_text parsed ;;
     Ok {| output := output b ++ response;
           insights := insights b ++ response |})
    (fun _ => b).

(** One turn of the [while] loop for a chunk that [reader.read()]
    delivered. *)
Definition on_chunk (b : Buffers) (value : Chunk) : Buffers :=
  fold_left on_line (lines_of (decode value)) b.

(** The loop, for the chunks read until the stream is done. *)
Definition read_stream (chunks : list Chunk) (b : Buffers) : Buffers :=
  fold_left on_chunk chunks b.











(** The response of the endpoint: the chunks its body delivers and, when
    a read of the body fails, the error of that read. *)
Record Body : Type := { delivered : list Chunk; failure : option string }.
Record Response : Type := { ok : bool; status : string; body : option Body }.

(** [fetch] of the generate endpoint for a prompt; the fixed instructions
    the prompt starts with. *)
Variable fetch : jsstring -> Result Response.
Variable instructions : jsstring.

(** The state of the component that [analyzeResume] writes. *)
Record Component : Type := {
  shown : jsstring;
  analyzing : bool;
  errors : list string
}.

(** [analyzeResume]: the prompt carries the first 3000 characters of the
    resume; an error of the request or of a read is reported and leaves
    what was appended so far in place. *)
Definition analyzeResume (resumeText : jsstring) (c : Component) : Component :=
  let start := {| output := []; insights := shown c |} in
  let prompt := instructions ++ firstn 3000 resumeText in
  let '(b, error) :=
    match fetch prompt with
    | Throw e => (start, Some e)
    | Ok response =>
        if negb (ok response)
        then (start, Some ("HTTP error! status: " ++ status response)%string)
        else match body response with
             | None => (start, Some "No response body"%string)
             | Some stream =>
                 (read_stream (delivered stream) start, failure stream)
             end
    end in
  {| shown := insights b;
     analyzing := false;
     errors := match error with
               | Some e => errors c ++ [("Analysis failed: " ++ e)%string]
               | None => errors c
               end |}.

End Reader.





End Insights.



(* ===================================================================== *)
(** ** The resume text extractor ([handleResumeUpload] of JobDetails) *)
(* ===================================================================== *)

Module Upload.

(** An uploaded file: its declared media type and its bytes. *)
Record File : Type := { type : string; bytes : list N }.

(** [reader.result] once the read has ended. *)
Inductive ReaderResult : Type :=
| Text (s : jsstring)
| NotText.

Record FormData : Type := {
  name : jsstring;
  email : jsstring;
  phone : jsstring;
  coverLetter : jsstring;
  resumeText : jsstring
}.

Definition set_resumeText (v : jsstring) (d : FormData) : FormData :=
  {| name := name d; email := email d; phone := phone d;
     coverLetter := coverLetter d; resumeText := v |}.

Inductive Toast : Type :=
| toast_success (message : string)
| toast_error (message : string).

Definition plain_text : string := "text/plain".
Definition docx : string :=
  "application/vnd.openxmlformats-officedocument.wordprocessingml.document".
Definition msword : string := "application/msword".

Section Handler.

(** The services of the platform: [FileReader.readAsText], which rejects
    on a read error, and the raw-text extraction of the document
    converter. *)
Variable readAsText : File -> Result ReaderResult.
Variable extractRawText : File -> Result jsstring.

(** The text the three branches on [file.type] assign to [resumeText]. *)
Definition extract (file : File) : Result jsstring :=
  if String.eqb (type file) plain_text then
    r <- readAsText file ;;
    match r with
    | Text s => Ok s
    | NotText => Throw "Cannot read properties of null (reading 'trim')"
    end
  else if String.eqb (type file) docx || String.eqb (type file) msword then
    extractRawText file
  else
    r <- readAsText file ;;
    match r with
    | Text s => Ok s
    | NotText => Ok (of_string "Error reading file")
    end.

(** [handleResumeUpload]: the form data and the notification after the
    event; [file] is [e.target.files?.[0]]. *)
Definition handleResumeUpload (file : option File) (d : FormData)
  : FormData * option Toast :=
  match file with
  | None => (d, None)
  | Some file =>
      try_catch
        (text <- extract file ;;
         if negb (truthy (trim text))
         then Throw "Could not extract text from the file"
         else Ok (set_resumeText text d,
                  Some (toast_success "Resume processed successfully!")))
        (fun message =>
           (d, Some (toast_error ("Error processing resume: " ++ message))))
  end.

End Handler.

(** A reader that decodes a file of ASCII bytes. *)
Definition read_ascii (file : File) : Result ReaderResult :=
  Ok (Text (bytes file)).

Definition no_converter (file : File) : Result jsstring :=
  Throw "not a document".

Definition empty_form : FormData :=
  {| name := []; email := []; phone := []; coverLetter := [];
     resumeText := [] |}.

End Upload.

(** C7, as the specification states it, at a plain-text upload whose
    content is two blanks: the extracted text is not the content, the
    upload is refused. *)
Lemma plain_text_round_trip_counterexample :
  let file := {| Upload.type := "text/plain";
                 Upload.bytes := of_string "  " |} in
  Upload.read_ascii file = Ok (Upload.Text (of_string "  "))
  /\ Upload.handleResumeUpload Upload.read_ascii Upload.no_converter
       (Some file) Upload.empty_form
     = (Upload.empty_form,
        Some (Upload.toast_error
                "Error processing resume: Could not extract text from the file"))
  /\ Upload.resumeText
       (fst (Upload.handleResumeUpload Upload.read_ascii Upload.no_converter
               (Some file) Upload.empty_form))
     <> of_string "  ".
Proof. cbv zeta; repeat split; vm_compute; discriminate. Qed.

(** C7 (amended): for every plain-text upload whose content is the string
    [S], when [S] has a character that is not white space the extracted
    text is [S] exactly and the upload is reported as processed; when [S]
    is empty or white space only the upload is refused and the form keeps
    the resume text it had. *)
Theorem plain_text_round_trip
        (readAsText : Upload.File -> Result Upload.ReaderResult)
        (extractRawText : Upload.File -> Result jsstring)
        (file : Upload.File) (S : jsstring) (d : Upload.FormData) :
  Upload.type file = "text/plain"%string ->
  readAsText file = Ok (Upload.Text S) ->
  Upload.handleResumeUpload readAsText extractRawText (Some file) d
  = if truthy (trim S)
    then (Upload.set_resumeText S d,
          Some (Upload.toast_success "Resume processed successfully!"))
    else (d,
          Some (Upload.toast_error
                  "Error processing resume: Could not extract text from the file")).
Proof.
  intros Htype Hread.
  unfold Upload.handleResumeUpload, Upload.extract.
  rewrite Htype; change (String.eqb "text/plain" Upload.plain_text) with true.
  cbv iota; rewrite Hread; cbn [bind try_catch].
  destruct (truthy (trim S)); reflexivity.
Qed.

(** The amended C7 at an upload of one line. *)
Lemma plain_text_round_trip_witness :
  let file := {| Upload.type := "text/plain";
                 Upload.bytes := of_string "Skills: Go, Rust" |} in
  Upload.resumeText
    (fst (Upload.handleResumeUpload Upload.read_ascii Upload.no_converter
            (Some file) Upload.empty_form))
  = of_string "Skills: Go, Rust".
Proof.
  exact (f_equal (fun r => Upload.resumeText (fst r))
           (@plain_text_round_trip Upload.read_ascii Upload.no_converter
              {| Upload.type := "text/plain";
                 Upload.bytes := of_string "Skills: Go, Rust" |}
              (of_string "Skills: Go, Rust") Upload.empty_form
              eq_refl eq_refl)).
Defined.

(* ===================================================================== *)
(** ** The applications table of the backend *)
(* ===================================================================== *)

Module Backend.

(** The structured evaluation of a resume against a job. *)
Record AIReview : Type := {
  review_match_score : Q;
  matching_keywords : list jsstring;
  missing_keywords : list jsstring;
  usp : list jsstring;
  analysis : jsstring;
  recommendation : jsstring
}.

(** A row of [applications] as ReviewApplications and ApplicationInsights
    read it; [match_score] and [ai_review] are absent until an analysis is
    stored. *)
Record Application : Type := {
  id : jsstring;
  job_id : jsstring;
  candidate_name : jsstring;
  candidate_email : jsstring;
  resume : jsstring;
  coverletter : jsstring;
  status : jsstring;
  match_score : option Q;
  ai_review : option AIReview
}.

Record Job : Type := {
  job_key : jsstring;
  title : jsstring;
  description : jsstring;
  requirements : jsstring
}.

Definition set_status (v : jsstring) (a : Application) : Application :=
  {| id := id a; job_id := job_id a; candidate_name := candidate_name a;
     candidate_email := candidate_email a; resume := resume a;
     coverletter := coverletter a; status := v;
     match_score := match_score a; ai_review := ai_review a |}.

Definition set_review (r : AIReview) (a : Application) : Application :=
  {| id := id a; job_id := job_id a; candidate_name := candidate_name a;
     candidate_email := candidate_email a; resume := resume a;
     coverletter := coverletter a; status := status a;
     match_score := Some (review_match_score r); ai_review := Some r |}.

(** [.update(patch).eq('id', key)] on the rows of the table. *)
Definition update_eq_id (patch : Application -> Application) (key : jsstring)
           (rows : list Application) : list Application :=
  map (fun a => if str_eqb (id a) key then patch a else a) rows.

(** [.select('*').eq('job_id', key)] *)
Definition select_eq_job (key : jsstring) (rows : list Application)
  : list Application :=
  filter (fun a => str_eqb (job_id a) key) rows.

(** The calls of [toast], in the order they are made. *)
Inductive Toast : Type :=
| toast_loading (message : jsstring) (key : option jsstring)
| toast_success (message : jsstring) (key : option jsstring)
| toast_error (message : jsstring) (key : option jsstring).

Definition pending : jsstring := of_string "pending".
Definition reviewing_status : jsstring := of_string "reviewing".
Definition selected : jsstring := of_string "selected".
Definition rejected : jsstring := of_string "rejected".

Lemma update_eq_id_id patch key rows :
  (forall a, id (patch a) = id a) ->
  map id (update_eq_id patch key rows) = map id rows.
Proof.
  intros Hid; unfold update_eq_id; rewrite map_map; apply map_ext.
  intros a; destruct (str_eqb (id a) key); auto.
Qed.

End Backend.

(* ===================================================================== *)
(** ** Review all ([reviewAllApplications] of ReviewApplications) *)
(* ===================================================================== *)

Module ReviewAll.

Import Backend.

(** The component state and the table behind it. *)
Record State : Type := {
  job : option Job;
  applications : list Application;
  reviewing : bool;
  toasts : list Toast;
  db : list Application
}.

Definition setReviewing (v : bool) (s : State) : State :=
  {| job := job s; applications := applications s; reviewing := v;
     toasts := toasts s; db := db s |}.

Definition setApplications (v : list Application) (s : State) : State :=
  {| job := job s; applications := v; reviewing := reviewing s;
     toasts := toasts s; db := db s |}.

Definition toast (t : Toast) (s : State) : State :=
  {| job := job s; applications := applications s; reviewing := reviewing s;
     toasts := toasts s ++ [t]; db := db s |}.

Definition write (rows : list Application) (s : State) : State :=
  {| job := job s; applications := applications s; reviewing := reviewing s;
     toasts := toasts s; db := rows |}.

Section Batch.

(** The route parameter, and the answers of the backend: the error of an
    update of the row with a given id, and the error of a read, if any. *)
Variable jobId : jsstring.
Variable update_error : jsstring -> option string.
Variable select_error : option string.

Definition review_key (a : Application) : option jsstring :=
  Some (of_string "review-" ++ id a).

(** [fetchJobAndApplications]: the rows of the job are read again; the job
    row itself does not change. *)
Definition fetchJobAndApplications (s : State) : State :=
  match select_error with
  | Some e => toast (toast_error (of_string e) None) s
  | None => setApplications (select_eq_job jobId (db s)) s
  end.

(** [reviewSingleApplication] up to its first [await]: the request to mark
    the row is sent. *)
Definition review_sent (a : Application) (s : State) : State :=
  toast (toast_loading
           (of_string "Analyzing " ++ candidate_name a
            ++ of_string "'s application...") (review_key a))
        (setReviewing true s).

(** [reviewSingleApplication] from the answer of the backend on: the row is
    marked, or the error is reported for this application.  The refetch
    after a success writes the list on screen only and is taken together
    with the answer. *)
Definition review_answered (a : Application) (s : State) : State :=
  match update_error (id a) with
  | None =>
      let s := write (update_eq_id (set_status reviewing_status) (id a)
                                   (db s)) s in
      let s := toast (toast_success
                        (of_string "Application marked for review: "
                         ++ candidate_name a) (review_key a)) s in
      let s := fetchJobAndApplications s in
      setReviewing false s
  | Some e =>
      let errorMessage :=
        if truthy (of_string e) then of_string e
        else of_string "Unknown error occurred" in
      let s := toast (toast_error
                        (of_string "Failed to mark application: "
                         ++ errorMessage) (review_key a)) s in
      setReviewing false s
  end.

Definition reviewSingleApplication (a : Application) (s : State) : State :=
  match job s with
  | None => toast (toast_error (of_string "Job details not found") None) s
  | Some _ => review_answered a (review_sent a s)
  end.

Definition all_reviewed : Toast :=
  toast_success (of_string "All applications reviewed successfully!") None.

(** [reviewAllApplications]: every call of [reviewSingleApplication] runs
    to its [await], the answers are handled in the order [answers] they
    arrive in, and [Promise.all] resolves after the last one. *)
Definition reviewAllApplications (answers : list Application) (s : State)
  : State :=
  match job s with
  | None => toast (toast_error (of_string "Job details not found") None) s
  | Some _ =>
      let s := setReviewing true s in
      let s := fold_left (fun s a => review_sent a s) (applications s) s in
      let s := fold_left (fun s a => review_answered a s) answers s in
      let s := toast all_reviewed s in
      setReviewing false s
  end.

Definition accepted (a : Application) : bool :=
  match update_error (id a) with None => true | Some _ => false end.

(** The toast that reports the outcome for one application. *)
Definition outcome (a : Application) : Toast :=
  match update_error (id a) with
  | None =>
      toast_success (of_string "Application marked for review: "
                     ++ candidate_name a) (review_key a)
  | Some e =>
      toast_error (of_string "Failed to mark application: "
                   ++ (if truthy (of_string e) then of_string e
                       else of_string "Unknown error occurred"))
                  (review_key a)
  end.

(** The row is one of an accepted application of the batch. *)
Definition marked (batch : list Application) (row : Application) : bool :=
  existsb (fun a => str_eqb (id row) (id a) && accepted a) batch.

Definition mark (batch : list Application) (row : Application) : Application :=
  if marked batch row then set_status reviewing_status row else row.

End Batch.

Section BatchFacts.

Variable jobId : jsstring.
Variable update_error : jsstring -> option string.
Variable select_error : option string.

Local Abbreviation sent := (review_sent).
Local Abbreviation answered :=
  (review_answered jobId update_error select_error).
Local Abbreviation refetch := (fetchJobAndApplications jobId select_error).

(** The toasts of [s'] are those of [s] and more after them. *)
Definition grows (s s' : State) : Prop :=
  exists more, toasts s' = toasts s ++ more.

Lemma grows_refl s : grows s s.
Proof. exists []; rewrite app_nil_r; reflexivity. Qed.

Lemma grows_trans s1 s2 s3 : grows s1 s2 -> grows s2 s3 -> grows s1 s3.
Proof.
  intros [m1 H1] [m2 H2]; exists (m1 ++ m2).
  rewrite H2, H1, app_assoc; reflexivity.
Qed.

Lemma grows_in s s' t : grows s s' -> In t (toasts s) -> In t (toasts s').
Proof. intros [m H] Hin; rewrite H; apply in_or_app; left; exact Hin. Qed.

Lemma refetch_db s : db (refetch s) = db s.
Proof. unfold fetchJobAndApplications; destruct select_error; reflexivity. Qed.

Lemma refetch_grows s : grows s (refetch s).
Proof.
  unfold fetchJobAndApplications; destruct select_error.
  - eexists; reflexivity.
  - exists []; rewrite app_nil_r; reflexivity.
Qed.

Lemma sent_db a s : db (sent a s) = db s.
Proof. reflexivity. Qed.

Lemma sent_grows a s : grows s (sent a s).
Proof. eexists; reflexivity. Qed.

Lemma answered_db a s :
  db (answered a s)
  = if accepted update_error a
    then update_eq_id (set_status reviewing_status) (id a) (db s)
    else db s.
Proof.
  unfold review_answered, accepted; destruct (update_error (id a)).
  - reflexivity.
  - cbn [setReviewing db]; rewrite refetch_db; reflexivity.
Qed.

Lemma answered_grows a s : grows s (answered a s).
Proof.
  unfold review_answered, fetchJobAndApplications, grows.
  destruct (update_error (id a)); [|destruct select_error];
    cbn [setReviewing setApplications toast write toasts].
  - eexists; reflexivity.
  - rewrite <- app_assoc; eexists; reflexivity.
  - eexists; reflexivity.
Qed.

Lemma answered_outcome a s :
  In (outcome update_error a) (toasts (answered a s)).
Proof.
  unfold review_answered, outcome; destruct (update_error (id a)).
  - cbn [setReviewing toast toasts]; apply in_or_app; right; left.
    reflexivity.
  - cbn [setReviewing toasts].
    eapply grows_in; [apply refetch_grows|].
    cbn [toast toasts]; apply in_or_app; right; left; reflexivity.
Qed.

Lemma fold_sent_db apps s :
  db (fold_left (fun s a => sent a s) apps s) = db s.
Proof. revert s; induction apps as [|a apps IH]; intros s; simpl; auto.
       rewrite IH; reflexivity. Qed.

Lemma fold_answered_grows answers s :
  grows s (fold_left (fun s a => answered a s) answers s).
Proof.
  revert s; induction answers as [|a answers IH]; intros s; simpl.
  - apply grows_refl.
  - eapply grows_trans; [apply answered_grows | apply IH].
Qed.

Lemma fold_answered_outcomes answers s a :
  In a answers ->
  In (outcome update_error a)
     (toasts (fold_left (fun s a => answered a s) answers s)).
Proof.
  revert s; induction answers as [|b answers IH]; intros s; simpl;
    [contradiction|].
  intros [->|Hin]; [|auto].
  eapply grows_in; [apply fold_answered_grows | apply answered_outcome].
Qed.

Lemma mark_step a answers row :
  mark update_error answers
       (if accepted update_error a && str_eqb (id row) (id a)
        then set_status reviewing_status row else row)
  = mark update_error (a :: answers) row.
Proof.
  unfold mark, marked; cbn [existsb].
  rewrite (andb_comm (str_eqb (id row) (id a))).
  destruct (accepted update_error a && str_eqb (id row) (id a)); cbn.
  - match goal with |- (if ?b then _ else _) = _ => destruct b end;
      reflexivity.
  - reflexivity.
Qed.

Lemma fold_answered_db answers s :
  db (fold_left (fun s a => answered a s) answers s)
  = map (mark update_error answers) (db s).
Proof.
  revert s; induction answers as [|a answers IH]; intros s.
  - simpl; unfold mark; simpl; rewrite map_id; reflexivity.
  - simpl fold_left; rewrite IH, answered_db.
    unfold update_eq_id.
    destruct (accepted update_error a) eqn:E.
    + rewrite map_map; apply map_ext; intros row.
      rewrite <- mark_step, E; reflexivity.
    + apply map_ext; intros row.
      rewrite <- mark_step, E; reflexivity.
Qed.

Lemma marked_permutation batch answers row :
  Permutation batch answers ->
  marked update_error batch row = marked update_error answers row.
Proof.
  unfold marked; induction 1 as [|a l l' _ IH|a b l|l l' l'' _ IH1 _ IH2];
    cbn [existsb].
  - reflexivity.
  - rewrite IH; reflexivity.
  - rewrite !orb_assoc, (orb_comm (_ && accepted update_error b));
      reflexivity.
  - rewrite IH1; exact IH2.
Qed.

Lemma map_mark_fields batch rows :
  map ai_review (map (mark update_error batch) rows) = map ai_review rows
  /\ map match_score (map (mark update_error batch) rows)
     = map match_score rows.
Proof.
  rewrite !map_map; split; apply map_ext; intros row; unfold mark;
    destruct (marked update_error batch row); reflexivity.
Qed.

(** Whatever the answers were, the last toast of the batch reports it as
    reviewed: [reviewSingleApplication] catches its own errors, so the
    [catch] block of the batch is never entered. *)
Lemma batch_reports_success (answers : list Application) (s : State) j :
  job s = Some j ->
  exists before,
    toasts (reviewAllApplications jobId update_error select_error answers s)
    = before ++ [all_reviewed].
Proof.
  intros Hjob; unfold reviewAllApplications; rewrite Hjob.
  eexists; reflexivity.
Qed.

End BatchFacts.

End ReviewAll.

(** The scenario of the specification: three applications, the backend
    refuses the request for the second. *)
Module Scenario.

Import Backend ReviewAll.

Definition the_job : Job :=
  {| job_key := of_string "job-1"; title := of_string "Engineer";
     description := of_string "Build things";
     requirements := of_string "Go, Rust" |}.

Definition applicant (key name : string) : Application :=
  {| id := of_string key; job_id := of_string "job-1";
     candidate_name := of_string name; candidate_email := [];
     resume := of_string "Skills: Go"; coverletter := [];
     status := pending; match_score := None; ai_review := None |}.

Definition three : list Application :=
  [applicant "1" "Ada"; applicant "2" "Bob"; applicant "3" "Cy"].

Definition refuse_second (key : jsstring) : option string :=
  if str_eqb key (of_string "2") then Some "permission denied"%string else None.

Definition start : State :=
  {| job := Some the_job; applications := three; reviewing := false;
     toasts := []; db := three |}.

(** The answers arrive last to first. *)
Definition finish : State :=
  reviewAllApplications (of_string "job-1") refuse_second None (rev three)
                        start.

End Scenario.

(** C3, as the specification states it, at the scenario: the first and the
    third application are answered without error, and no AIReview and no
    match score is stored for them; the batch writes the status only. *)
Lemma review_all_claim_counterexample :
  map Backend.status (ReviewAll.db Scenario.finish)
  = [Backend.reviewing_status; Backend.pending; Backend.reviewing_status]
  /\ map Backend.ai_review (ReviewAll.db Scenario.finish)
     = [None; None; None]
  /\ map Backend.match_score (ReviewAll.db Scenario.finish)
     = [None; None; None].
Proof. repeat split. Qed.

(** C3 (amended): in the batch over the applications on screen, one
    request to mark the row as reviewing is sent per application; in
    whatever order the answers arrive, each row of an application whose
    request is accepted gets the status reviewing and every other row is
    left as it was, so a refused request does not keep the others from
    completing; no AIReview and no match score is written; the outcome of
    each application is reported in a toast of its own. *)
Theorem review_all_marks_each
        (jobId : jsstring) (update_error : jsstring -> option string)
        (select_error : option string)
        (answers : list Backend.Application) (s : ReviewAll.State)
        (j : Backend.Job) :
  ReviewAll.job s = Some j ->
  Permutation (ReviewAll.applications s) answers ->
  let s' :=
    ReviewAll.reviewAllApplications jobId update_error select_error
                                    answers s in
  ReviewAll.db s'
  = map (ReviewAll.mark update_error (ReviewAll.applications s))
        (ReviewAll.db s)
  /\ map Backend.ai_review (ReviewAll.db s')
     = map Backend.ai_review (ReviewAll.db s)
  /\ map Backend.match_score (ReviewAll.db s')
     = map Backend.match_score (ReviewAll.db s)
  /\ (forall a, In a (ReviewAll.applications s) ->
                In (ReviewAll.outcome update_error a) (ReviewAll.toasts s')).
Proof.
  intros Hjob Hperm; cbv zeta.
  unfold ReviewAll.reviewAllApplications; rewrite Hjob.
  cbn [ReviewAll.setReviewing ReviewAll.toast ReviewAll.db ReviewAll.toasts
       ReviewAll.applications].
  set (s1 := fold_left _ (ReviewAll.applications s) _).
  assert (Hdb :
    ReviewAll.db
      (fold_left
         (fun s a => ReviewAll.review_answered jobId update_error
                       select_error a s) answers s1)
    = map (ReviewAll.mark update_error (ReviewAll.applications s))
          (ReviewAll.db s)).
  { rewrite ReviewAll.fold_answered_db; unfold s1.
    rewrite ReviewAll.fold_sent_db; cbn [ReviewAll.db].
    apply map_ext; intros row; unfold ReviewAll.mark.
    rewrite (ReviewAll.marked_permutation update_error row Hperm).
    reflexivity. }
  rewrite Hdb; repeat split.
  - apply ReviewAll.map_mark_fields.
  - apply ReviewAll.map_mark_fields.
  - intros a Hin; apply in_or_app; left.
    apply ReviewAll.fold_answered_outcomes.
    eapply Permutation_in; eauto.
Qed.

(** The amended C3 at the scenario, the answers arriving last to first. *)
Lemma review_all_marks_each_witness :
  map Backend.status (ReviewAll.db Scenario.finish)
  = [Backend.reviewing_status; Backend.pending; Backend.reviewing_status]
  /\ In (Backend.toast_error
           (of_string "Failed to mark application: permission denied")
           (Some (of_string "review-2")))
        (ReviewAll.toasts Scenario.finish).
Proof.
  pose proof (@review_all_marks_each (of_string "job-1")
                Scenario.refuse_second None (rev Scenario.three)
                Scenario.start Scenario.the_job eq_refl
                (Permutation_rev Scenario.three)) as H.
  cbv zeta in H; destruct H as (Hdb & _ & _ & Hout).
  split.
  - exact (f_equal (map Backend.status) Hdb).
  - exact (Hout (Scenario.applicant "2" "Bob") (or_intror (or_introl eq_refl))).
Defined.

(* ===================================================================== *)
(** ** The status controls of the review screen ([ApplicationReview]) *)
(* ===================================================================== *)

Module ReviewScreen.

Import Backend.

(** What the review screen draws next to the name of a candidate. *)
Inductive Control : Type :=
| SelectButton
| RejectButton
| ReviewButton
| SelectedBadge
| RejectedBadge.

(** [cond && element] *)
Definition when (cond : bool) (element : list Control) : list Control :=
  if cond then element else [].

(** The controls of one application in the screen that App.tsx holds. *)
Definition status_controls (status : jsstring) : list Control :=
  when (str_eqb status pending) [SelectButton; RejectButton]
  ++ when (str_eqb status selected) [SelectedBadge]
  ++ when (str_eqb status rejected) [RejectedBadge].

(** The controls of one application in pages/ApplicationReview.tsx. *)
Definition manual_review_controls (status : jsstring) : list Control :=
  [ReviewButton]
  ++ when (str_eqb status selected) [SelectedBadge]
  ++ when (str_eqb status rejected) [RejectedBadge].

Definition offers_decision (cs : list Control) : bool :=
  existsb (fun c => match c with
                    | SelectButton | RejectButton => true
                    | _ => false
                    end) cs.

Definition terminal (status : jsstring) : bool :=
  str_eqb status selected || str_eqb status rejected.

End ReviewScreen.

(** C8: for every application whose status is selected or rejected,
    neither variant of the review screen draws the Select and Reject
    buttons; the buttons are drawn only for the status pending, which is
    not terminal. *)
Theorem terminal_status_has_no_controls (status : jsstring) :
  (ReviewScreen.terminal status = true ->
   ReviewScreen.offers_decision (ReviewScreen.status_controls status) = false
   /\ ReviewScreen.offers_decision
        (ReviewScreen.manual_review_controls status) = false)
  /\ (ReviewScreen.offers_decision (ReviewScreen.status_controls status)
      = true ->
      status = Backend.pending /\ ReviewScreen.terminal status = false).
Proof.
  unfold ReviewScreen.terminal, ReviewScreen.status_controls,
    ReviewScreen.manual_review_controls, ReviewScreen.when.
  destruct (str_eqb status Backend.pending) eqn:Ep.
  - apply str_eqb_eq in Ep; subst status; split; [discriminate|].
    intros _; split; reflexivity.
  - split.
    + intros _; destruct (str_eqb status Backend.selected),
        (str_eqb status Backend.rejected); split; reflexivity.
    + destruct (str_eqb status Backend.selected),
        (str_eqb status Backend.rejected); discriminate.
Qed.

(** C8 at an application that is already selected. *)
Lemma terminal_status_has_no_controls_witness :
  ReviewScreen.status_controls Backend.selected
  = [ReviewScreen.SelectedBadge]
  /\ ReviewScreen.offers_decision
       (ReviewScreen.status_controls Backend.selected) = false.
Proof.
  split; [reflexivity|].
  exact (proj1 (proj1 (terminal_status_has_no_controls Backend.selected)
                  eq_refl)).
Defined.

(* ===================================================================== *)
(** ** The status update ([updateStatus] of ApplicationInsights) *)
(* ===================================================================== *)

Module StatusUpdate.

Import Backend.

(** The parameter type ['selected' | 'rejected']. *)
Inductive Decision : Type := Selected | Rejected.

Definition text (d : Decision) : jsstring :=
  match d with
  | Selected => selected
  | Rejected => rejected
  end.

Record State : Type := {
  application : option Application;
  updating : bool;
  toasts : list Toast;
  back : nat;
  db : list Application
}.

Definition setUpdating (v : bool) (s : State) : State :=
  {| application := application s; updating := v; toasts := toasts s;
     back := back s; db := db s |}.

Definition toast (t : Toast) (s : State) : State :=
  {| application := application s; updating := updating s;
     toasts := toasts s ++ [t]; back := back s; db := db s |}.

Definition write (rows : list Application) (s : State) : State :=
  {| application := application s; updating := updating s;
     toasts := toasts s; back := back s; db := rows |}.

(** [navigate(-1)] *)
Definition navigate_back (s : State) : State :=
  {| application := application s; updating := updating s;
     toasts := toasts s; back := S (back s); db := db s |}.

Section Update.

Variable update_error : jsstring -> option string.

(** [updateStatus], the same in both variants of the component. *)
Definition updateStatus (status : Decision) (s : State) : State :=
  match application s with
  | None => s
  | Some app =>
      let s := setUpdating true s in
      match update_error (id app) with
      | Some e =>
          setUpdating false (toast (toast_error (of_string e) None) s)
      | None =>
          let s := write (update_eq_id (set_status (text status)) (id app)
                                       (db s)) s in
          let s := toast (toast_success
                            (of_string "Candidate " ++ text status
                             ++ of_string "!") None) s in
          let s := navigate_back s in
          setUpdating false s
      end
  end.

End Update.

(** A table with one application, already selected. *)
Definition selected_row : Application :=
  {| id := of_string "7"; job_id := of_string "job-1";
     candidate_name := of_string "Ada"; candidate_email := [];
     resume := []; coverletter := []; status := selected;
     match_score := None; ai_review := None |}.

Definition viewing_selected : State :=
  {| application := Some selected_row; updating := false; toasts := [];
     back := 0; db := [selected_row] |}.

End StatusUpdate.

(** C10: when an application is loaded and the backend accepts the
    update, [updateStatus] writes the requested status to every row with
    the id of the application, whatever status the row has: the table
    after the call is the table before it with the status of those rows
    replaced, and a row that is selected becomes rejected on request. *)
Theorem updateStatus_unconditional
        (update_error : jsstring -> option string)
        (decision : StatusUpdate.Decision) (s : StatusUpdate.State)
        (app : Backend.Application) :
  StatusUpdate.application s = Some app ->
  update_error (Backend.id app) = None ->
  let s' := StatusUpdate.updateStatus update_error decision s in
  StatusUpdate.db s'
  = Backend.update_eq_id
      (Backend.set_status (StatusUpdate.text decision)) (Backend.id app)
      (StatusUpdate.db s)
  /\ (forall row,
        In row (StatusUpdate.db s) -> Backend.id row = Backend.id app ->
        In (Backend.set_status (StatusUpdate.text decision) row)
           (StatusUpdate.db s'))
  /\ (forall row,
        In row (StatusUpdate.db s') -> Backend.id row = Backend.id app ->
        Backend.status row = StatusUpdate.text decision).
Proof.
  intros Happ Hok; cbv zeta.
  unfold StatusUpdate.updateStatus; rewrite Happ; cbv zeta.
  cbn [StatusUpdate.setUpdating StatusUpdate.application]; rewrite Hok.
  cbn [StatusUpdate.setUpdating StatusUpdate.navigate_back StatusUpdate.toast
       StatusUpdate.write StatusUpdate.db].
  split; [reflexivity|split].
  - intros row Hin Hid; unfold Backend.update_eq_id.
    apply in_map_iff; exists row; split; [|assumption].
    rewrite Hid, str_eqb_refl; reflexivity.
  - intros row Hin Hid; unfold Backend.update_eq_id in Hin.
    apply in_map_iff in Hin as (old & Hrow & _).
    destruct (str_eqb (Backend.id old) (Backend.id app)) eqn:E.
    + subst row; reflexivity.
    + subst row; rewrite Hid in E; rewrite str_eqb_refl in E; discriminate.
Qed.

(** C10 at a row that is selected and is then rejected. *)
Lemma updateStatus_unconditional_witness :
  map Backend.status (StatusUpdate.db StatusUpdate.viewing_selected)
  = [Backend.selected]
  /\ map Backend.status
       (StatusUpdate.db
          (StatusUpdate.updateStatus (fun _ => None) StatusUpdate.Rejected
             StatusUpdate.viewing_selected))
     = [Backend.rejected].
Proof.
  split; [reflexivity|].
  exact (f_equal (map Backend.status)
           (proj1 (@updateStatus_unconditional (fun _ => None)
                     StatusUpdate.Rejected StatusUpdate.viewing_selected
                     StatusUpdate.selected_row eq_refl eq_refl))).
Defined.

(* ===================================================================== *)
(** ** Storing a match score (ReviewApplications and App.tsx) *)
(* ===================================================================== *)

Module Analysis.

Import Backend.

(** A score is a finite number, read as a rational; a score that is
    [undefined] or [NaN] is an absent one. *)
Definition in_range (q : Q) : Prop := (0 <= q)%Q /\ (q <= 100)%Q.

(** The invariant of [match_score] on a row. *)
Definition score_ok (a : Application) : Prop :=
  match match_score a with
  | Some q => in_range q
  | None => True
  end.

(** The argument of the analysis service. *)
Record Request : Type := {
  jobTitle : jsstring;
  jobDescription : jsstring;
  req_requirements : jsstring;
  candidateName : jsstring;
  req_resume : jsstring;
  coverLetter : jsstring
}.

Record State : Type := {
  job : option Job;
  applications : list Application;
  toasts : list Toast;
  selectedAnalysis : option (Application * AIReview);
  db : list Application
}.

Definition toast (t : Toast) (s : State) : State :=
  {| job := job s; applications := applications s;
     toasts := toasts s ++ [t]; selectedAnalysis := selectedAnalysis s;
     db := db s |}.

Definition write (rows : list Application) (s : State) : State :=
  {| job := job s; applications := applications s; toasts := toasts s;
     selectedAnalysis := selectedAnalysis s; db := rows |}.

Definition setApplications (v : list Application) (s : State) : State :=
  {| job := job s; applications := v; toasts := toasts s;
     selectedAnalysis := selectedAnalysis s; db := db s |}.

Definition setSelectedAnalysis (v : option (Application * AIReview))
           (s : State) : State :=
  {| job := job s; applications := applications s; toasts := toasts s;
     selectedAnalysis := v; db := db s |}.

(** The row of [parsed_resumes] that App.tsx inserts, and the result of the
    matcher it takes the score from. *)
Record MatchResult : Type := { score : option Q }.

Record ParsedResume (ParsedData : Type) : Type := {
  application_id : jsstring;
  parsed_data : ParsedData;
  parsed_match_score : Q;
  match_details : MatchResult
}.

(** [matchResult.score || 0] *)
Definition score_or_zero (m : MatchResult) : Q :=
  match score m with
  | Some q => if Qeq_bool q 0 then 0%Q else q
  | None => 0%Q
  end.

Section Handlers.

(** [analyzeResume] of services/aiService, which is not among the
    sources: a function that answers with an AIReview or fails. *)
Variable analyzeResume : Request -> Result AIReview.

(** [parseResume] and [matchResumeWithJD] of lib/huggingface, which is not
    among the sources either. *)
Variable ParsedData : Type.
Variable parseResume : jsstring -> Result ParsedData.
Variable matchResumeWithJD : jsstring -> jsstring -> Result MatchResult.

Variable update_error : jsstring -> option string.
Variable insert_error : jsstring -> option string.

Definition analysis_key (a : Application) : option jsstring :=
  Some (of_string "view-analysis-" ++ id a).

Definition failed (a : Application) (e : string) (s : State) : State :=
  toast (toast_error (of_string "Failed to analyze application: "
                      ++ of_string e) (analysis_key a)) s.

(** The handler of the View Analysis button of ReviewApplications. *)
Definition viewAnalysis (application : Application) (s : State) : State :=
  let s := toast (toast_loading
                    (of_string "Analyzing " ++ candidate_name application
                     ++ of_string "'s application...")
                    (analysis_key application)) s in
  match job s with
  | None => toast (toast_error (of_string "Job details not found") None) s
  | Some j =>
      match analyzeResume
              {| jobTitle := title j; jobDescription := description j;
                 req_requirements := requirements j;
                 candidateName := candidate_name application;
                 req_resume := resume application;
                 coverLetter := coverletter application |} with
      | Throw e => failed application e s
      | Ok aiReview =>
          match update_error (id application) with
          | Some e => failed application e s
          | None =>
              let s :=
                write (update_eq_id
                         (fun a => set_status reviewing_status
                                     (set_review aiReview a))
                         (id application) (db s)) s in
              let updatedApplication := set_review aiReview application in
              let s :=
                setApplications
                  (map (fun app =>
                          if str_eqb (id app) (id application)
                          then updatedApplication else app)
                       (applications s)) s in
              let s :=
                toast (toast_success
                         (of_string "Analysis complete for "
                          ++ candidate_name application)
                         (analysis_key application)) s in
              setSelectedAnalysis (Some (updatedApplication, aiReview)) s
          end
      end
  end.

(** The statements of the [try] block of [handleParseResume] of App.tsx up
    to the insert into [parsed_resumes]: the table after them. *)
Definition parse_and_match (j : Job) (key resume_text : jsstring)
           (rows : list (ParsedResume ParsedData))
  : Result (list (ParsedResume ParsedData)) :=
  parseResult <- parseResume resume_text ;;
  matchResult <- matchResumeWithJD resume_text
                   (description j ++ [newline; newline]
                    ++ of_string "Requirements:" ++ [newline]
                    ++ requirements j) ;;
  match insert_error key with
  | Some e => Throw e
  | None =>
      Ok (rows ++ [ {| application_id := key; parsed_data := parseResult;
                       parsed_match_score := score_or_zero matchResult;
                       match_details := matchResult |} ])
  end.

(** The state of the screen of App.tsx that the handler writes, and the
    table of parsed resumes. *)
Record ParseState : Type := {
  parse_job : option Job;
  processing : option jsstring;
  parse_toasts : list Toast;
  parsed_resumes : list (ParsedResume ParsedData)
}.

(** [handleParseResume]; the refresh of the list that follows the insert
    reads the tables and writes none. *)
Definition handleParseResume (key resume_text : jsstring) (s : ParseState)
  : ParseState :=
  match parse_job s with
  | None => s
  | Some j =>
      match parse_and_match j key resume_text (parsed_resumes s) with
      | Ok rows =>
          {| parse_job := parse_job s; processing := None;
             parse_toasts :=
               parse_toasts s
               ++ [toast_success (of_string "Resume parsed successfully!")
                                 None];
             parsed_resumes := rows |}
      | Throw e =>
          {| parse_job := parse_job s; processing := None;
             parse_toasts :=
               parse_toasts s ++ [toast_error (of_string e) None];
             parsed_resumes := parsed_resumes s |}
      end
  end.

(** What the analysis service is asked for an application of a job. *)
Definition request_of (j : Job) (application : Application) : Request :=
  {| jobTitle := title j; jobDescription := description j;
     req_requirements := requirements j;
     candidateName := candidate_name application;
     req_resume := resume application;
     coverLetter := coverletter application |}.

(** The review that View Analysis has to store: the answer of the service
    for the application, when the job is loaded, the service answers and
    the table accepts the update. *)
Definition answered (application : Application) (s : State)
  : option AIReview :=
  match job s with
  | None => None
  | Some j =>
      match analyzeResume (request_of j application) with
      | Throw _ => None
      | Ok r =>
          match update_error (id application) with
          | Some _ => None
          | None => Some r
          end
      end
  end.

(** The text of the job that the matcher is given. *)
Definition job_text (j : Job) : jsstring :=
  description j ++ [newline; newline] ++ of_string "Requirements:"
  ++ [newline] ++ requirements j.

(** The parsed data and the match that [handleParseResume] has to store:
    the answers of the two services, when the job is loaded, both answer
    and the table accepts the insert. *)
Definition matched (key resume_text : jsstring) (s : ParseState)
  : option (ParsedData * MatchResult) :=
  match parse_job s with
  | None => None
  | Some j =>
      match parseResume resume_text with
      | Throw _ => None
      | Ok d =>
          match matchResumeWithJD resume_text (job_text j) with
          | Throw _ => None
          | Ok m =>
              match insert_error key with
              | Some _ => None
              | None => Some (d, m)
              end
          end
      end
  end.

Lemma viewAnalysis_stores (application : Application) (s : State) :
  match answered application s with
  | Some r =>
      db (viewAnalysis application s)
      = update_eq_id (fun a => set_status reviewing_status (set_review r a))
                     (id application) (db s)
      /\ applications (viewAnalysis application s)
         = map (fun app => if str_eqb (id app) (id application)
                           then set_review r application else app)
               (applications s)
  | None =>
      db (viewAnalysis application s) = db s
      /\ applications (viewAnalysis application s) = applications s
  end.
Proof.
  unfold answered, request_of, viewAnalysis; cbv zeta; cbn [toast job].
  destruct (job s) as [j|]; [|split; reflexivity].
  match goal with |- context [analyzeResume ?req] =>
    destruct (analyzeResume req) as [r|e] end; [|split; reflexivity].
  destruct (update_error (id application)); split; reflexivity.
Qed.

Lemma handleParseResume_stores key resume_text (s : ParseState) :
  match matched key resume_text s with
  | Some (d, m) =>
      parsed_resumes (handleParseResume key resume_text s)
      = parsed_resumes s
        ++ [ {| application_id := key; parsed_data := d;
                parsed_match_score := score_or_zero m;
                match_details := m |} ]
  | None =>
      parsed_resumes (handleParseResume key resume_text s)
      = parsed_resumes s
  end.
Proof.
  unfold matched, job_text, handleParseResume, parse_and_match.
  destruct (parse_job s) as [j|]; [|reflexivity].
  destruct (parseResume resume_text) as [d|e]; cbn [bind]; [|reflexivity].
  match goal with |- context [matchResumeWithJD ?a ?b] =>
    destruct (matchResumeWithJD a b) as [m|e] end;
    cbn [bind]; [|reflexivity].
  destruct (insert_error key); reflexivity.
Qed.

End Handlers.

(** A row patched by [update_eq_id] has the key; the others are kept. *)
Lemma update_eq_id_hit patch key rows row :
  (forall a, id (patch a) = id a) ->
  In row (update_eq_id patch key rows) -> id row = key ->
  exists old, In old rows /\ row = patch old.
Proof.
  intros Hid Hin Hrow; unfold update_eq_id in Hin.
  apply in_map_iff in Hin as (old & Hold & Hin).
  destruct (str_eqb (id old) key) eqn:E.
  - exists old; split; [exact Hin | symmetry; exact Hold].
  - subst row; rewrite Hrow, str_eqb_refl in E; discriminate.
Qed.

Lemma update_eq_id_miss patch key rows row :
  In row rows -> id row <> key -> In row (update_eq_id patch key rows).
Proof.
  intros Hin Hrow; unfold update_eq_id; apply in_map_iff.
  exists row; split; [|exact Hin].
  destruct (str_eqb (id row) key) eqn:E; [|reflexivity].
  apply str_eqb_eq in E; contradiction.
Qed.

(** Services for the examples: an analysis that scores zero, one that
    scores 150, a parser without data, a matcher without a score and one
    that computes zero. *)
Definition zero_review : AIReview :=
  {| review_match_score := 0; matching_keywords := [];
     missing_keywords := [of_string "Go"]; usp := [];
     analysis := of_string "No overlap";
     recommendation := of_string "Reject" |}.

Definition review_150 : AIReview :=
  {| review_match_score := 150; matching_keywords := [of_string "Go"];
     missing_keywords := []; usp := [];
     analysis := of_string "Strong overlap";
     recommendation := of_string "Interview" |}.

Definition scores_zero (req : Request) : Result AIReview := Ok zero_review.
Definition scores_150 (req : Request) : Result AIReview := Ok review_150.
Definition parses_nothing (t : jsstring) : Result unit := Ok tt.
Definition no_score (t jd : jsstring) : Result MatchResult :=
  Ok {| score := None |}.
Definition zero_score (t jd : jsstring) : Result MatchResult :=
  Ok {| score := Some 0%Q |}.

Definition unreviewed : Application :=
  {| id := of_string "7"; job_id := of_string "job-1";
     candidate_name := of_string "Ada"; candidate_email := [];
     resume := of_string "Skills: Go"; coverletter := [];
     status := pending; match_score := None; ai_review := None |}.

Definition engineer : Job :=
  {| job_key := of_string "job-1"; title := of_string "Engineer";
     description := of_string "Build things";
     requirements := of_string "Rust" |}.

Definition on_screen : State :=
  {| job := Some {| job_key := of_string "job-1";
                    title := of_string "Engineer";
                    description := of_string "Build things";
                    requirements := of_string "Rust" |};
     applications := [unreviewed]; toasts := [];
     selectedAnalysis := None; db := [unreviewed] |}.

Definition parse_screen : ParseState unit :=
  {| parse_job := Some engineer; processing := None; parse_toasts := [];
     parsed_resumes := [] |}.

(** The Match Score cell of ReviewApplications:
    [(match_score || ai_review?.match_score) ? score% : 'Not reviewed']. *)
Inductive ScoreCell : Type :=
| Percent (q : Q)
| NotReviewed.

(** [a || b] on scores that may be absent: zero is falsy. *)
Definition or_else (a b : option Q) : option Q :=
  match a with
  | Some q => if Qeq_bool q 0 then b else a
  | None => b
  end.

Definition score_cell (a : Application) : ScoreCell :=
  match or_else (match_score a)
                (option_map review_match_score (ai_review a)) with
  | Some q => if Qeq_bool q 0 then NotReviewed else Percent q
  | None => NotReviewed
  end.

(** The cell tests the truth of the score: a stored zero is shown like an
    absent score. *)
Lemma score_cell_of_zero :
  score_cell (set_review zero_review unreviewed) = NotReviewed
  /\ score_cell unreviewed = NotReviewed.
Proof. split; reflexivity. Qed.

End Analysis.

(** C9 as stated does not hold: [handleParseResume] stores
    [matchResult.score || 0], so a match without a score and a match whose
    computed score is zero leave the same stored score, 0; and the Match
    Score cell shows an application whose stored score is a computed zero
    as it shows one that was never analyzed. *)
Lemma match_score_claim_counterexample :
  map (@Analysis.parsed_match_score unit)
      (Analysis.parsed_resumes
         (Analysis.handleParseResume Analysis.parses_nothing
            Analysis.no_score (fun _ => None)
            (of_string "7") (of_string "Skills: Go")
            Analysis.parse_screen))
  = [0%Q]
  /\ map (@Analysis.parsed_match_score unit)
         (Analysis.parsed_resumes
            (Analysis.handleParseResume Analysis.parses_nothing
               Analysis.zero_score (fun _ => None)
               (of_string "7") (of_string "Skills: Go")
               Analysis.parse_screen))
     = [0%Q]
  /\ map Backend.match_score
         (Analysis.db
            (Analysis.viewAnalysis Analysis.scores_zero (fun _ => None)
               Analysis.unreviewed Analysis.on_screen))
     = [Some 0%Q]
  /\ map Analysis.score_cell
         (Analysis.db
            (Analysis.viewAnalysis Analysis.scores_zero (fun _ => None)
               Analysis.unreviewed Analysis.on_screen))
     = [Analysis.NotReviewed]
  /\ map Backend.match_score (Analysis.db Analysis.on_screen) = [None]
  /\ map Analysis.score_cell (Analysis.db Analysis.on_screen)
     = [Analysis.NotReviewed].
Proof. repeat split; reflexivity. Qed.

(** C9, amended: each of the two writes stores the score the service
    answered with, unchanged.  When the job is loaded, the analysis service
    answers with a review and the table accepts the update, View Analysis
    leaves every row of the application with the score of that review
    present, with the review and with status reviewing, keeps every other
    row and adds or removes none, and sets the same score on the
    application on screen; the stored scores are then within 0 and 100
    when that of the review is, and the row of the application is outside
    when it is not.  Otherwise View Analysis writes nothing.  When the job
    is loaded, the two services answer and the table accepts the insert,
    [handleParseResume] appends one row whose score is that of the match,
    or 0 when the match has no score or a score of zero; otherwise it adds
    no row. *)
Theorem match_score_written_as_given
        (analyzeResume : Analysis.Request -> Result Backend.AIReview)
        (ParsedData : Type)
        (parseResume : jsstring -> Result ParsedData)
        (matchResumeWithJD : jsstring -> jsstring
                             -> Result Analysis.MatchResult)
        (update_error insert_error : jsstring -> option string)
        (application : Backend.Application) (s : Analysis.State)
        (key resume_text : jsstring)
        (p : Analysis.ParseState ParsedData) :
  let s' := Analysis.viewAnalysis analyzeResume update_error application s in
  let p' := Analysis.handleParseResume parseResume matchResumeWithJD
              insert_error key resume_text p in
  match Analysis.answered analyzeResume update_error application s with
  | Some r =>
      (forall row, In row (Analysis.db s') ->
                   Backend.id row = Backend.id application ->
                   Backend.match_score row
                   = Some (Backend.review_match_score r)
                   /\ Backend.ai_review row = Some r
                   /\ Backend.status row = Backend.reviewing_status)
      /\ (forall row, In row (Analysis.db s) ->
                      Backend.id row <> Backend.id application ->
                      In row (Analysis.db s'))
      /\ map Backend.id (Analysis.db s') = map Backend.id (Analysis.db s)
      /\ (forall app, In app (Analysis.applications s') ->
                      Backend.id app = Backend.id application ->
                      Backend.match_score app
                      = Some (Backend.review_match_score r)
                      /\ Backend.ai_review app = Some r)
      /\ (Analysis.in_range (Backend.review_match_score r) ->
          Forall Analysis.score_ok (Analysis.db s) ->
          Forall Analysis.score_ok (Analysis.applications s) ->
          Forall Analysis.score_ok (Analysis.db s')
          /\ Forall Analysis.score_ok (Analysis.applications s'))
      /\ (~ Analysis.in_range (Backend.review_match_score r) ->
          forall row, In row (Analysis.db s') ->
                      Backend.id row = Backend.id application ->
                      ~ Analysis.score_ok row)
  | None =>
      Analysis.db s' = Analysis.db s
      /\ Analysis.applications s' = Analysis.applications s
  end
  /\ match Analysis.matched parseResume matchResumeWithJD insert_error
             key resume_text p with
     | Some (d, m) =>
         Analysis.parsed_resumes p'
         = Analysis.parsed_resumes p
           ++ [ {| Analysis.application_id := key;
                   Analysis.parsed_data := d;
                   Analysis.parsed_match_score :=
                     match Analysis.score m with
                     | Some q => if Qeq_bool q 0 then 0%Q else q
                     | None => 0%Q
                     end;
                   Analysis.match_details := m |} ]
     | None => Analysis.parsed_resumes p' = Analysis.parsed_resumes p
     end.
Proof.
  cbv zeta; split.
  - pose proof (Analysis.viewAnalysis_stores analyzeResume update_error
                  application s) as H.
    destruct (Analysis.answered analyzeResume update_error application s)
      as [r|]; [|exact H].
    destruct H as [Edb Eapps]; rewrite Edb, Eapps.
    split; [|split; [|split; [|split; [|split]]]].
    + intros row Hin Hid.
      apply Analysis.update_eq_id_hit in Hin as (old & _ & ->);
        [repeat split | reflexivity | exact Hid].
    + intros row Hin Hid; apply Analysis.update_eq_id_miss; assumption.
    + apply Backend.update_eq_id_id; reflexivity.
    + intros app Hin Hid.
      apply in_map_iff in Hin as (old & Hold & _).
      destruct (str_eqb (Backend.id old) (Backend.id application)) eqn:E.
      * subst app; split; reflexivity.
      * subst app; rewrite Hid, str_eqb_refl in E; discriminate.
    + intros Hr Hdb Happs; split.
      * unfold Backend.update_eq_id; apply Forall_map.
        eapply Forall_impl; [|exact Hdb].
        intros row Hrow.
        destruct (str_eqb (Backend.id row) (Backend.id application));
          [exact Hr | exact Hrow].
      * apply Forall_map; eapply Forall_impl; [|exact Happs].
        intros row Hrow.
        destruct (str_eqb (Backend.id row) (Backend.id application));
          [exact Hr | exact Hrow].
    + intros Hr row Hin Hid Hok.
      apply Analysis.update_eq_id_hit in Hin as (old & _ & ->);
        [|reflexivity | exact Hid].
      apply Hr; exact Hok.
  - pose proof (Analysis.handleParseResume_stores parseResume
                  matchResumeWithJD insert_error key resume_text p) as H.
    destruct (Analysis.matched parseResume matchResumeWithJD insert_error
                key resume_text p) as [[d m]|]; exact H.
Qed.

(** C9 at an application without a score: an analysis that computes zero
    leaves the score present and zero, one that answers 150 leaves 150,
    outside the range the state was in, and a match without a score is
    stored as 0. *)
Lemma match_score_written_as_given_witness :
  Forall Analysis.score_ok (Analysis.db Analysis.on_screen)
  /\ (forall row,
        In row (Analysis.db
                  (Analysis.viewAnalysis Analysis.scores_zero
                     (fun _ => None) Analysis.unreviewed
                     Analysis.on_screen)) ->
        Backend.id row = Backend.id Analysis.unreviewed ->
        Backend.match_score row = Some 0%Q)
  /\ (forall row,
        In row (Analysis.db
                  (Analysis.viewAnalysis Analysis.scores_150
                     (fun _ => None) Analysis.unreviewed
                     Analysis.on_screen)) ->
        Backend.id row = Backend.id Analysis.unreviewed ->
        Backend.match_score row = Some 150%Q /\ ~ Analysis.score_ok row)
  /\ Analysis.parsed_resumes
       (Analysis.handleParseResume Analysis.parses_nothing
          Analysis.no_score (fun _ => None)
          (of_string "7") (of_string "Skills: Go") Analysis.parse_screen)
     = [ {| Analysis.application_id := of_string "7";
            Analysis.parsed_data := tt;
            Analysis.parsed_match_score := 0%Q;
            Analysis.match_details := {| Analysis.score := None |} |} ].
Proof.
  pose proof (@match_score_written_as_given
                Analysis.scores_zero unit Analysis.parses_nothing
                Analysis.no_score (fun _ => None) (fun _ => None)
                Analysis.unreviewed Analysis.on_screen
                (of_string "7") (of_string "Skills: Go")
                Analysis.parse_screen) as Hzero.
  pose proof (@match_score_written_as_given
                Analysis.scores_150 unit Analysis.parses_nothing
                Analysis.no_score (fun _ => None) (fun _ => None)
                Analysis.unreviewed Analysis.on_screen
                (of_string "7") (of_string "Skills: Go")
                Analysis.parse_screen) as H150.
  cbv zeta in Hzero, H150.
  destruct Hzero as [(Hrow0 & _) Hparsed].
  destruct H150 as [(Hrow & _ & _ & _ & _ & Hout) _].
  split; [repeat constructor|]; split; [|split].
  - intros row Hin Hid; exact (proj1 (Hrow0 row Hin Hid)).
  - intros row Hin Hid; split; [exact (proj1 (Hrow row Hin Hid))|].
    apply (Hout ltac:(intros [_ H]; unfold Qle in H; simpl in H; lia)
                row Hin Hid).
  - exact Hparsed.
Defined.
